(** * SwapDotz celebration videos: a model of the offline generator

    This development embeds [generate_celebration_videos.py] (the variant that
    claims parity with the in-app Flutter painters) and the batch driver it
    shares with [generate_better_celebration_videos.py].

    Modelling conventions.
    - Python [int] is [Z]; [//] and [%] with a positive divisor are [Z.div]
      and [Z.modulo].
    - Python [float] is idealised as a real number ([R]); [math.cos],
      [math.sin] and [math.pi] are the functions of the real-number library.
      Rounding of binary64 arithmetic is not modelled.
    - The global generator of the [random] module, the textual form of a
      float inside an f-string and the operating system behind
      [subprocess.run] are outside the repository: they are parameters of
      the model ([Section Pipeline]).
    - The ffmpeg filter strings are kept as records (inputs, filter name,
      options, output label) together with the function that prints them the
      way the f-strings of the source do. *)

From Stdlib Require Import Reals Lra ZArith List String Ascii Lia Bool.
From Stdlib Require Import DecimalString.
Import ListNotations.

Local Open Scope string_scope.
Local Open Scope Z_scope.

(** ** Python primitives *)

(** [str(i)] of an [int], as interpolated by [f"{i}"]. *)
Definition str_Z (z : Z) : string := NilZero.string_of_int (Z.to_int z).

(** [range(n)]: the integers [0 .. n-1], empty when [n <= 0]. *)
Definition range (n : Z) : list Z := map Z.of_nat (seq 0 (Z.to_nat n)).

(** [int(x)] of a float: truncation towards zero. *)
Definition py_int (x : R) : Z :=
  if Rle_dec 0 x then Int_part x else - Int_part (- x).

(** [s in l] for a list of strings. *)
Definition str_in (s : string) (l : list string) : bool :=
  existsb (String.eqb s) l.

(** [l[k]] for a list of strings; every use in the source has
    [0 <= k < len(l)], where Python raises [IndexError] this returns [""]. *)
Definition py_index (l : list string) (k : Z) : string :=
  nth (Z.to_nat k) l "".

(** ** A small state monad, used over the generator state and the world *)

Definition M (S A : Type) : Type := S -> A * S.

Definition ret {S A : Type} (a : A) : M S A := fun s => (a, s).

Definition bind {S A B : Type} (m : M S A) (k : A -> M S B) : M S B :=
  fun s => let (a, s') := m s in k a s'.

Notation "x <- m ;; k" := (bind m (fun x => k))
  (at level 100, m at next level, right associativity).
Notation "m ;;; k" := (bind m (fun _ => k))
  (at level 100, right associativity).

(** ** Filter graph

    One element of [filters] is one ffmpeg filter: optional input labels, the
    filter name, its [key=value] options and the output label. *)

(** Time expressions of the overlay filter ([t] is ffmpeg's timestamp). *)
Inductive expr : Type :=
| EInt (z : Z)
| EFloat (r : R)
| ETime
| EAdd (a b : expr)
| ESub (a b : expr)
| EMul (a b : expr)
| EDiv (a b : expr)
| EParen (a : expr).

Fixpoint expr_eval (t : R) (e : expr) : R :=
  match e with
  | EInt z => IZR z
  | EFloat r => r
  | ETime => t
  | EAdd a b => expr_eval t a + expr_eval t b
  | ESub a b => expr_eval t a - expr_eval t b
  | EMul a b => expr_eval t a * expr_eval t b
  | EDiv a b => expr_eval t a / expr_eval t b
  | EParen a => expr_eval t a
  end.

Inductive optval : Type :=
| OText (s : string)
| OSize (w h : Z)
| OInt (z : Z)
| OFloat (r : R)
| OQuoted (e : expr).

Record filter : Type := mk_filter {
  f_inputs : list string;
  f_name : string;
  f_opts : list (string * optval);
  f_output : string
}.

(** The value bound to option [k] of a filter, if any. *)
Fixpoint assoc (k : string) (l : list (string * optval)) : option optval :=
  match l with
  | [] => None
  | (k', v) :: l' => if String.eqb k k' then Some v else assoc k l'
  end.

Definition f_opt (k : string) (f : filter) : option optval :=
  assoc k (f_opts f).

(** ** Video specifications (lines 16-18) *)

Definition duration : R := 1.5.
Definition fps : Z := 30.
Definition width : Z := 720.
Definition height : Z := 1280.

(** ** Rarity-specific settings (lines 21-35) *)

Record settings : Type := mk_settings {
  bg_color : string;
  particle_count : Z;
  particle_colors : list string;
  effects : list string
}.

Definition rarity_settings (rarity : string) : settings :=
  if String.eqb rarity "common" then
    mk_settings "transparent" 30 ["#32CD32"; "#90EE90"] []
  else if String.eqb rarity "uncommon" then
    mk_settings "transparent" 60 ["#4A90E2"; "#00CED1"] ["burst_rays"]
  else
    mk_settings "transparent" 100 ["#FF6B35"; "#FFD700"]
                ["burst_rays"; "shockwave"].

(** [ray_count = 48 if rarity == 'rare' else 32] (line 96). *)
Definition ray_count_of (rarity : string) : Z :=
  if String.eqb rarity "rare" then 48 else 32.

(** ** Geometry (lines 51-52) *)

Definition center_x : Z := width / 2.
Definition center_y : Z := height / 3.

(** ** Simulated entities: the local variables of one loop iteration *)

Record particle : Type := mk_particle {
  p_index : Z;
  p_angle : R;
  p_velocity : R;
  p_max_radius : R;
  p_end_x : R;
  p_end_y : R;
  p_size : R;
  p_color : string;
  p_particle_size : Z
}.

Record burst_ray : Type := mk_ray {
  r_index : Z;
  r_angle : R;
  r_max_length : R;
  r_end_x : R;
  r_end_y : R
}.

(** ** Layer labels *)

Definition lbl_p (i : Z) : string := "p" ++ str_Z i.
Definition lbl_tmp (i : Z) : string := "tmp" ++ str_Z i.
Definition lbl_ray (r : Z) : string := "ray" ++ str_Z r.
Definition lbl_ray_tmp (r : Z) : string := "ray_tmp" ++ str_Z r.

(** ** Filters of the source *)

(** Line 46: the base transparent background. *)
Definition bg_filter : filter :=
  mk_filter [] "color"
    [("c", OText "black@0.0"); ("s", OSize width height);
     ("d", OFloat duration); ("r", OInt fps)]
    "bg".

(** Lines 78-79 and 109-110:
    [f"{center}+({end}-{center})*t/{duration}"]. *)
Definition position_expr (center : Z) (end_ : R) : expr :=
  EAdd (EInt center)
       (EDiv (EMul (EParen (ESub (EFloat end_) (EInt center))) ETime)
             (EFloat duration)).

(** Line 82: [f"1-t/{duration}"]. *)
Definition alpha_expr : expr := ESub (EInt 1) (EDiv ETime (EFloat duration)).

(** Lines 84-88: the layer a particle is overlaid on. *)
Definition input_layer (i : Z) : string :=
  if i =? 0 then "bg" else lbl_tmp (i - 1).

(** Lines 75-90: the two filters appended for one particle.  [alpha_expr] is
    computed by the source (line 82) and not used by the overlay string. *)
Definition particle_filters (p : particle) : list filter :=
  let i := p_index p in
  let x_expr := position_expr center_x (p_end_x p) in
  let y_expr := position_expr center_y (p_end_y p) in
  let _unused := alpha_expr in
  [ mk_filter [] "color"
      [("c", OText (p_color p));
       ("s", OSize (p_particle_size p) (p_particle_size p));
       ("d", OFloat duration); ("r", OInt fps)]
      (lbl_p i);
    mk_filter [input_layer i; lbl_p i] "overlay"
      [("x", OQuoted x_expr); ("y", OQuoted y_expr);
       ("eval", OText "frame"); ("format", OText "auto")]
      (lbl_tmp i) ].

(** Lines 99-104: one burst ray. *)
Definition gen_ray (ray_count ray : Z) : burst_ray :=
  let angle := (2 * PI / IZR ray_count * IZR ray)%R in
  let max_length := (720 * 0.15)%R in
  let end_x := (IZR center_x + cos angle * max_length)%R in
  let end_y := (IZR center_y + sin angle * max_length)%R in
  mk_ray ray angle max_length end_x end_y.

(** Lines 107-112: the two filters appended for one ray, overlaid on the
    current [final_layer]. *)
Definition ray_filters (final_layer : string) (r : burst_ray) : list filter :=
  let x_expr := position_expr center_x (r_end_x r) in
  let y_expr := position_expr center_y (r_end_y r) in
  [ mk_filter [] "color"
      [("c", OText "#FFD700"); ("s", OSize 2 20);
       ("d", OFloat duration); ("r", OInt fps)]
      (lbl_ray (r_index r));
    mk_filter [final_layer; lbl_ray (r_index r)] "overlay"
      [("x", OQuoted x_expr); ("y", OQuoted y_expr);
       ("eval", OText "frame"); ("format", OText "auto")]
      (lbl_ray_tmp (r_index r)) ].

(** Lines 98-113: the ray loop, updating [filters] and [final_layer]. *)
Fixpoint ray_loop (ray_count : Z) (rays : list Z)
         (acc : list filter * string) : list filter * string :=
  match rays with
  | [] => acc
  | ray :: rays' =>
      let (filters, final_layer) := acc in
      ray_loop ray_count rays'
               ((filters ++ ray_filters final_layer (gen_ray ray_count ray))%list,
                lbl_ray_tmp ray)
  end.

(** The rays the loop goes through, as a list. *)
Definition gen_rays (rarity : string) : list burst_ray :=
  if str_in "burst_rays" (effects (rarity_settings rarity)) then
    map (gen_ray (ray_count_of rarity)) (range (ray_count_of rarity))
  else [].

(** ** The outside world *)

(** What [subprocess.run] does, as far as the source distinguishes it. *)
Inductive run_result : Type :=
| Completed (returncode : Z) (stderr : string)
| TimeoutExpired
| FileNotFoundError.

Inductive event : Type :=
| Print (line : string)
| Makedirs (path : string)
| Spawn (cmd : list string) (timeout : Z).

Definition is_spawn (e : event) : bool :=
  match e with Spawn _ _ => true | _ => false end.

(** The commands handed to [subprocess.run], in order. *)
Definition spawned (log : list event) : list (list string) :=
  flat_map (fun e => match e with Spawn c _ => [c] | _ => [] end) log.

(** The collaborators outside the repository, as an interface:
    - the state of Python's global generator, [random.seed(a)] for an integer
      [a] (the new state depends on [a] only) and [random.random()];
    - [repr] of a float, as interpolated by an f-string;
    - the operating system: running a command yields what [subprocess.run]
      observes and a new system state. *)
Record env : Type := mk_env {
  env_rng : Type;
  env_seed : Z -> env_rng;
  env_random : env_rng -> R * env_rng;
  env_repr_float : R -> string;
  env_os : Type;
  env_run : list string -> env_os -> run_result * env_os
}.

Section Pipeline.

Variable E : env.

Local Abbreviation rng := (env_rng E).
Local Abbreviation rng_seed := (env_seed E).
Local Abbreviation rng_random := (env_random E).
Local Abbreviation repr_float := (env_repr_float E).
Local Abbreviation os := (env_os E).
Local Abbreviation os_run := (env_run E).

(** *** Printing the graph (the f-strings of lines 46, 75-90, 107-112) *)

Fixpoint expr_str (e : expr) : string :=
  match e with
  | EInt z => str_Z z
  | EFloat r => repr_float r
  | ETime => "t"
  | EAdd a b => expr_str a ++ "+" ++ expr_str b
  | ESub a b => expr_str a ++ "-" ++ expr_str b
  | EMul a b => expr_str a ++ "*" ++ expr_str b
  | EDiv a b => expr_str a ++ "/" ++ expr_str b
  | EParen a => "(" ++ expr_str a ++ ")"
  end.

Definition optval_str (v : optval) : string :=
  match v with
  | OText s => s
  | OSize w h => str_Z w ++ "x" ++ str_Z h
  | OInt z => str_Z z
  | OFloat r => repr_float r
  | OQuoted e => "'" ++ expr_str e ++ "'"
  end.

Definition opts_str (opts : list (string * optval)) : string :=
  String.concat ":" (map (fun kv => fst kv ++ "=" ++ optval_str (snd kv)) opts).

Definition filter_str (f : filter) : string :=
  String.concat "" (map (fun l => "[" ++ l ++ "]") (f_inputs f))
  ++ f_name f ++ "=" ++ opts_str (f_opts f)
  ++ "[" ++ f_output f ++ "]".

(** *** Drawing from the global generator *)

Definition seed (a : Z) : M rng unit := fun _ => (tt, rng_seed a).

Definition random : M rng R := rng_random.

(** [random.uniform(a, b)] is [a + (b - a) * random()]. *)
Definition uniform (a b : R) : M rng R :=
  u <- random ;; ret (a + (b - a) * u)%R.

(** Lines 56-74: the draws and the arithmetic of one particle. *)
Definition gen_particle (colors : list string) (i : Z) : M rng particle :=
  angle <- uniform 0 (2 * PI) ;;
  velocity <- uniform 0.0 1.0 ;;
  let max_radius := (432 * velocity)%R in
  let end_x := (IZR center_x + cos angle * max_radius)%R in
  let end_y := (IZR center_y + sin angle * max_radius)%R in
  u <- uniform 0 3 ;;
  let size := (2 + u)%R in
  let color := py_index colors (i mod Z.of_nat (List.length colors)) in
  let particle_size := py_int size in
  ret (mk_particle i angle velocity max_radius end_x end_y size color
                   particle_size).

(** Lines 54-90: the particle loop, appending to [filters]. *)
Fixpoint particle_loop (colors : list string) (idx : list Z)
         (filters : list filter) : M rng (list filter) :=
  match idx with
  | [] => ret filters
  | i :: idx' =>
      p <- gen_particle colors i ;;
      particle_loop colors idx' (filters ++ particle_filters p)%list
  end.

(** Lines 43-113: seeding, both loops; returns [filters] and
    [final_layer]. *)
Definition build_filters (rarity : string) : M rng (list filter * string) :=
  let cfg := rarity_settings rarity in
  let filters := [bg_filter] in
  seed 42 ;;;
  filters <- particle_loop (particle_colors cfg)
                           (range (particle_count cfg)) filters ;;
  let final_layer :=
    if 0 <? particle_count cfg then lbl_tmp (particle_count cfg - 1)
    else "bg" in
  ret (if str_in "burst_rays" (effects cfg) then
         let ray_count := ray_count_of rarity in
         ray_loop ray_count (range ray_count) (filters, final_layer)
       else (filters, final_layer)).

(** The particles the loop goes through, as a list. *)
Fixpoint gen_particles (colors : list string) (idx : list Z)
  : M rng (list particle) :=
  match idx with
  | [] => ret []
  | i :: idx' =>
      p <- gen_particle colors i ;;
      ps <- gen_particles colors idx' ;;
      ret (p :: ps)
  end.

(** The simulation part of [create_celebration_video]: what lines 49-71
    and 95-104 compute, without the filter strings. *)
Definition simulate (rarity : string)
  : M rng (list particle * list burst_ray) :=
  let cfg := rarity_settings rarity in
  seed 42 ;;;
  ps <- gen_particles (particle_colors cfg) (range (particle_count cfg)) ;;
  ret (ps, gen_rays rarity).

(** *** The world: generator, operating system, log *)

Record state : Type := mk_state {
  st_rng : rng;
  st_os : os;
  st_log : list event
}.

Definition with_rng {A : Type} (m : M rng A) : M state A :=
  fun st =>
    let (a, g) := m (st_rng st) in
    (a, mk_state g (st_os st) (st_log st)).

Definition emit (e : event) : M state unit :=
  fun st => (tt, mk_state (st_rng st) (st_os st) (st_log st ++ [e])%list).

Definition print (line : string) : M state unit := emit (Print line).

Definition subprocess_run (cmd : list string) (timeout : Z)
  : M state run_result :=
  fun st =>
    let (r, o) := os_run cmd (st_os st) in
    (r, mk_state (st_rng st) o (st_log st ++ [Spawn cmd timeout])%list).

(** Lines 116-129. *)
Definition build_cmd (filters : list filter) (final_layer output_path : string)
  : list string :=
  let filter_complex := String.concat ";" (map filter_str filters) in
  [ "ffmpeg"; "-y";
    "-f"; "lavfi"; "-i";
    "color=c=black@0.0:s=" ++ str_Z width ++ "x" ++ str_Z height
      ++ ":d=" ++ repr_float duration ++ ":r=" ++ str_Z fps;
    "-filter_complex"; filter_complex;
    "-map"; "[" ++ final_layer ++ "]";
    "-c:v"; "libx264";
    "-pix_fmt"; "yuv420p";
    "-crf"; "18";
    "-preset"; "fast";
    "-movflags"; "+faststart";
    output_path ].

(** Lines 12-149. *)
Definition create_celebration_video (rarity output_path : string)
  : M state bool :=
  graph <- with_rng (build_filters rarity) ;;
  let cmd := build_cmd (fst graph) (snd graph) output_path in
  print ("Generating " ++ rarity ++ " celebration video...") ;;;
  print ("Command: " ++ String.concat " " (firstn 10 cmd) ++ "...") ;;;
  result <- subprocess_run cmd 60 ;;
  match result with
  | Completed returncode stderr =>
      if returncode =? 0 then
        print ("✅ Successfully created " ++ output_path) ;;;
        ret true
      else
        print ("❌ FFmpeg error: " ++ stderr) ;;;
        ret false
  | TimeoutExpired =>
      print ("❌ Timeout generating " ++ rarity ++ " video") ;;;
      ret false
  | FileNotFoundError =>
      print "❌ FFmpeg not found. Please install FFmpeg first:" ;;;
      print "   Ubuntu/Debian: sudo apt install ffmpeg" ;;;
      print "   macOS: brew install ffmpeg" ;;;
      ret false
  end.

(** *** The batch driver (lines 151-172) *)

Definition output_dir : string :=
  "/home/oliver/Desktop/swapdotz_flutter/assets/celebration_videos".

Definition rarities : list string := ["common"; "uncommon"; "rare"].

(** [os.path.join(output_dir, f"{rarity}_celebration.mp4")]. *)
Definition output_path_of (rarity : string) : string :=
  output_dir ++ "/" ++ rarity ++ "_celebration.mp4".

(** The [for] loop of [main]; [false] is the early [return False]. *)
Fixpoint main_loop (rs : list string) : M state bool :=
  match rs with
  | [] => ret true
  | rarity :: rs' =>
      success <- create_celebration_video rarity (output_path_of rarity) ;;
      if negb success then
        print ("Failed to create " ++ rarity ++ " video") ;;;
        ret false
      else main_loop rs'
  end.

Definition main : M state bool :=
  emit (Makedirs output_dir) ;;;
  completed <- main_loop rarities ;;
  if completed then
    print (String (ascii_of_nat 10) "🎉 All celebration videos generated successfully!") ;;;
    print ("Videos saved to: " ++ output_dir) ;;;
    ret true
  else ret false.

(** [if __name__ == "__main__": main()]: the value of [main()] is dropped
    and the interpreter ends normally, with exit status 0. *)
Definition script : M state Z :=
  main ;;; ret 0.

(** *** Observations used in the statements *)

Definition particles_of (rarity : string) (g : rng) : list particle :=
  fst (fst (simulate rarity g)).

Definition rays_of (rarity : string) (g : rng) : list burst_ray :=
  snd (fst (simulate rarity g)).

Definition filters_of (rarity : string) (g : rng) : list filter :=
  fst (fst (build_filters rarity g)).

Definition final_layer_of (rarity : string) (g : rng) : string :=
  snd (fst (build_filters rarity g)).

(** The command of a tier's job; the graph does not depend on the state
    the generator was in before [random.seed(42)]. *)
Definition job_cmd (rarity output_path : string) : list string :=
  build_cmd (filters_of rarity (rng_seed 42))
            (final_layer_of rarity (rng_seed 42)) output_path.

(** One tier's job of the batch, run from state [st]. *)
Definition job (rarity : string) : M state bool :=
  create_celebration_video rarity (output_path_of rarity).

End Pipeline.

Arguments mk_state {E}.
Arguments st_rng {E}.
Arguments st_os {E}.
Arguments st_log {E}.


(** ** A concrete environment, for closed examples

    The generator is a counter whose draws cycle through 0, 1/4, 1/2, 3/4;
    the encoder's answer is a function [outcome] of the command. *)

Definition demo_random (n : nat) : R * nat :=
  ((INR (n mod 4) / 4)%R, S n).

Definition demo_env (outcome : list string -> run_result) : env :=
  mk_env nat Z.to_nat demo_random (fun _ => "<float>")
         unit (fun cmd _ => (outcome cmd, tt)).

(** An encoder that accepts every graph. *)
Definition encoder_ok (cmd : list string) : run_result := Completed 0 "".

(** An encoder that rejects every graph. *)
Definition encoder_rejects (cmd : list string) : run_result :=
  Completed 1 "Invalid argument".

(** An encoder that rejects the first tier's job only. *)
Definition encoder_rejects_common (cmd : list string) : run_result :=
  if String.eqb (last cmd "")
       (output_path_of "common")
  then Completed 1 "Invalid argument" else Completed 0 "".

Definition demo_state (outcome : list string -> run_result)
  : state (demo_env outcome) :=
  @mk_state (demo_env outcome) 0%nat tt [].

(** ** Closed forms and specification-side definitions

    These are not code of the repository: they are what the statements below
    compare the code with. *)

(** [final_layer] when the particle loop is over (line 92). *)
Definition particles_final (n : Z) : string :=
  if 0 <? n then lbl_tmp (n - 1) else "bg".

(** The filters that the ray loop appends when it starts from
    [final_layer]. *)
Fixpoint ray_chain (ray_count : Z) (final_layer : string) (rays : list Z)
  : list filter :=
  match rays with
  | [] => []
  | ray :: rays' =>
      (ray_filters final_layer (gen_ray ray_count ray)
       ++ ray_chain ray_count (lbl_ray_tmp ray) rays')%list
  end.

(** The end position that the specification words prescribe: the centre
    point is (width/2, height/3) and the radius is 0.6 times the shorter
    side of the canvas times the velocity factor. *)
Definition spec_center : R * R := (IZR width / 2, IZR height / 3)%R.

Definition spec_radius (velocity : R) : R :=
  (0.6 * IZR (Z.min width height) * velocity)%R.

Definition spec_end_position (angle velocity : R) : R * R :=
  (fst spec_center + spec_radius velocity * cos angle,
   snd spec_center + spec_radius velocity * sin angle)%R.




(** The wiring of a filter: the labels it reads and the label it declares. *)
Definition wire (f : filter) : list string * string :=
  (f_inputs f, f_output f).

Definition particle_wires (i : Z) : list (list string * string) :=
  [ ([], lbl_p i); ([input_layer i; lbl_p i], lbl_tmp i) ].

(** The layer that ray [ray] is overlaid on, after [n] particles. *)
Definition ray_input (n ray : Z) : string :=
  if ray =? 0 then particles_final n else lbl_ray_tmp (ray - 1).

Definition ray_wires (n ray : Z) : list (list string * string) :=
  [ ([], lbl_ray ray); ([ray_input n ray; lbl_ray ray], lbl_ray_tmp ray) ].

(** Generation order: the background, the particles 0 .. n-1, the rays
    0 .. m-1; every overlay reads the result of the overlay before it. *)
Definition skeleton (n m : Z) : list (list string * string) :=
  (([], "bg") :: flat_map particle_wires (range n)
     ++ flat_map (ray_wires n) (range m))%list.

Definition final_label (n m : Z) : string :=
  if 0 <? m then lbl_ray_tmp (m - 1) else particles_final n.

(** Every operation reads only labels that earlier operations declared. *)
Fixpoint reads_earlier (seen : list string)
         (ws : list (list string * string)) : Prop :=
  match ws with
  | [] => True
  | (ins, out) :: ws' => incl ins seen /\ reads_earlier (seen ++ [out])%list ws'
  end.

(** A single linear chain ending in [final]: no label is declared twice,
    every operation reads earlier labels only, every declared label other
    than [final] is read exactly once over the whole graph, and [final] is
    declared and read by no operation. *)
Definition linear_chain (ws : list (list string * string)) (final : string)
  : Prop :=
  NoDup (map snd ws)
  /\ reads_earlier [] ws
  /\ (forall l, In l (map snd ws) -> l <> final ->
        count_occ string_dec (flat_map fst ws) l = 1%nat)
  /\ In final (map snd ws)
  /\ count_occ string_dec (flat_map fst ws) final = 0%nat.

Fixpoint nodupb (l : list string) : bool :=
  match l with
  | [] => true
  | x :: l' => negb (str_in x l') && nodupb l'
  end.

Fixpoint reads_earlierb (seen : list string)
         (ws : list (list string * string)) : bool :=
  match ws with
  | [] => true
  | (ins, out) :: ws' =>
      forallb (fun l => str_in l seen) ins
      && reads_earlierb (seen ++ [out])%list ws'
  end.

Definition linear_chainb (ws : list (list string * string)) (final : string)
  : bool :=
  nodupb (map snd ws)
  && reads_earlierb [] ws
  && forallb (fun l =>
                Nat.eqb (count_occ string_dec (flat_map fst ws) l)
                        (if String.eqb l final then 0 else 1))
             (map snd ws)
  && str_in final (map snd ws).



(** What [create_celebration_video] returns and prints for each result of
    [subprocess.run] (lines 134-149). *)
Definition result_ok (r : run_result) : bool :=
  match r with
  | Completed returncode _ => returncode =? 0
  | TimeoutExpired => false
  | FileNotFoundError => false
  end.

Definition result_prints (rarity output_path : string) (r : run_result)
  : list event :=
  match r with
  | Completed returncode stderr =>
      if returncode =? 0
      then [Print ("✅ Successfully created " ++ output_path)]
      else [Print ("❌ FFmpeg error: " ++ stderr)]
  | TimeoutExpired => [Print ("❌ Timeout generating " ++ rarity ++ " video")]
  | FileNotFoundError =>
      [Print "❌ FFmpeg not found. Please install FFmpeg first:";
       Print "   Ubuntu/Debian: sudo apt install ffmpeg";
       Print "   macOS: brew install ffmpeg"]
  end.

(** The three jobs, run one after the other from the state that follows
    [os.makedirs], all return [True]. *)
Definition all_tiers_succeed (E : env) (st : state E) : bool :=
  let st0 := snd (emit E (Makedirs output_dir) st) in
  let r1 := job E "common" st0 in
  let r2 := job E "uncommon" (snd r1) in
  let r3 := job E "rare" (snd r2) in
  fst r1 && fst r2 && fst r3.

(** The overlay strings of lines 90 and 112 have the options [x], [y],
    [eval] and [format]. *)
Definition overlay_of (ins : list string) (ex ey : R) (out : string)
  : filter :=
  mk_filter ins "overlay"
    [("x", OQuoted (position_expr center_x ex));
     ("y", OQuoted (position_expr center_y ey));
     ("eval", OText "frame"); ("format", OText "auto")]
    out.

(** Number of rays of a rarity: [ray_count] when 'burst_rays' is among the
    effects, none otherwise. *)
Definition rays_enabled (rarity : string) : Z :=
  if str_in "burst_rays" (effects (rarity_settings rarity))
  then ray_count_of rarity else 0.

(** ** The dramatic variant ([generate_better_celebration_videos.py])

    The second script shares the canvas, the frame rate and the centre point
    with the first one. It draws integers with [random.randint], clamps the
    end positions with [min] and [max] (so that a clamped coordinate is an
    [int] and an unclamped one a [float]), and reads the size of the file it
    produced: these are added to the environment. *)

Module Dramatic.

(** A Python number that is an [int] or a [float]. *)
Inductive num : Type :=
| NInt (z : Z)
| NFloat (r : R).

Definition num_val (n : num) : R :=
  match n with
  | NInt z => IZR z
  | NFloat r => r
  end.

(** [min(a, b)] is [b] when [b < a] and [a] otherwise; [max(a, b)] is [b]
    when [b > a] and [a] otherwise. *)
Definition py_min (a b : num) : num :=
  if Rlt_dec (num_val b) (num_val a) then b else a.

Definition py_max (a b : num) : num :=
  if Rlt_dec (num_val a) (num_val b) then b else a.

(** Lines 58-59: [max(0, min(bound, v))]. *)
Definition clamp (bound : Z) (v : R) : num :=
  py_max (NInt 0) (py_min (NInt bound) (NFloat v)).

(** Line 15. *)
Definition duration : R := 2.0.

(** Lines 20-40. *)
Record settings : Type := mk_settings {
  bg_color : string;
  primary_color : string;
  secondary_color : string;
  particle_count : Z;
  particle_size : Z;
  speed_multiplier : R
}.

Definition rarity_settings (rarity : string) : settings :=
  if String.eqb rarity "common" then
    mk_settings "#1a1a2e" "#32CD32" "#90EE90" 50 12 1.0
  else if String.eqb rarity "uncommon" then
    mk_settings "#1a1a2e" "#4A90E2" "#00CED1" 100 16 1.5
  else
    mk_settings "#1a1a2e" "#FF6B35" "#FFD700" 150 20 2.0.

(** The dictionary appended to [particles] (lines 64-71). *)
Record particle : Type := mk_particle {
  start_x : Z;
  start_y : Z;
  end_x : num;
  end_y : num;
  color : string;
  size : Z
}.

(** Expressions of the overlay options; [easeout(...)] is a function call. *)
Inductive expr : Type :=
| ENum (n : num)
| ETime
| EAdd (a b : expr)
| ESub (a b : expr)
| EMul (a b : expr)
| EDiv (a b : expr)
| EParen (a : expr)
| ECall (f : string) (a : expr).

(** The value of an expression at time [t], given what the functions it
    calls compute. *)
Fixpoint expr_eval (fn : string -> R -> R) (t : R) (e : expr) : R :=
  match e with
  | ENum n => num_val n
  | ETime => t
  | EAdd a b => expr_eval fn t a + expr_eval fn t b
  | ESub a b => expr_eval fn t a - expr_eval fn t b
  | EMul a b => expr_eval fn t a * expr_eval fn t b
  | EDiv a b => expr_eval fn t a / expr_eval fn t b
  | EParen a => expr_eval fn t a
  | ECall f a => fn f (expr_eval fn t a)
  end.

Inductive optval : Type :=
| OText (s : string)
| OSize (w h : Z)
| OInt (z : Z)
| OFloat (r : R)
| OQuoted (e : expr).

Record filter : Type := mk_filter {
  f_inputs : list string;
  f_name : string;
  f_opts : list (string * optval);
  f_output : string
}.

Fixpoint assoc (k : string) (l : list (string * optval)) : option optval :=
  match l with
  | [] => None
  | (k', v) :: l' => if String.eqb k k' then Some v else assoc k l'
  end.

Definition f_opt (k : string) (f : filter) : option optval :=
  assoc k (f_opts f).

Definition wire (f : filter) : list string * string :=
  (f_inputs f, f_output f).

(** Lines 85-86:
    [f"{start}+({end}-{start})*easeout(t/{duration})"]. *)
Definition position_expr (start : Z) (end_ : num) : expr :=
  EAdd (ENum (NInt start))
       (EMul (EParen (ESub (ENum end_) (ENum (NInt start))))
             (ECall "easeout" (EDiv ETime (ENum (NFloat duration))))).

(** Line 89: [f"1-t/{duration}"]. *)
Definition alpha_expr : expr :=
  ESub (ENum (NInt 1)) (EDiv ETime (ENum (NFloat duration))).

(** Line 77. *)
Definition bg_filter (cfg : settings) : filter :=
  mk_filter [] "color"
    [("c", OText (bg_color cfg)); ("s", OSize width height);
     ("d", OFloat duration); ("r", OInt fps)]
    "bg".

(** Lines 82-97: the two filters of the particle of index [i]. *)
Definition particle_filters (ip : Z * particle) : list filter :=
  let (i, p) := ip in
  let x_expr := position_expr (start_x p) (end_x p) in
  let y_expr := position_expr (start_y p) (end_y p) in
  [ mk_filter [] "color"
      [("c", OText (color p)); ("s", OSize (size p) (size p));
       ("d", OFloat duration); ("r", OInt fps)]
      (lbl_p i);
    mk_filter [input_layer i; lbl_p i] "overlay"
      [("x", OQuoted x_expr); ("y", OQuoted y_expr);
       ("alpha", OQuoted alpha_expr); ("eval", OText "frame")]
      (lbl_tmp i) ].

(** [enumerate(l)]. *)
Definition enumerate {A : Type} (l : list A) : list (Z * A) :=
  combine (range (Z.of_nat (List.length l))) l.

(** Lines 74-97. *)
Definition build_filters (cfg : settings) (particles : list particle)
  : list filter :=
  (bg_filter cfg :: flat_map particle_filters (enumerate particles))%list.

(** Line 100. *)
Definition final_output (particles : list particle) : string :=
  match particles with
  | [] => "bg"
  | _ => lbl_tmp (Z.of_nat (List.length particles) - 1)
  end.

(** The environment of the first script, with [random.randint(a, b)],
    [os.path.getsize(path)] ([None] when the file does not exist, where
    Python raises [FileNotFoundError]) and the format [:.1f] of a float. *)
Record denv : Type := mk_denv {
  base : env;
  denv_randint : Z -> Z -> env_rng base -> Z * env_rng base;
  denv_getsize : string -> env_os base -> option Z;
  denv_format_1f : R -> string
}.

Section Pipeline.

Variable D : denv.

Local Abbreviation E := (base D).

Definition randint (a b : Z) : M (env_rng E) Z := denv_randint D a b.

Definition getsize (path : string) : M (state E) (option Z) :=
  fun st => (denv_getsize D path (st_os st), st).

(** Lines 48-71: one particle. *)
Definition gen_particle (cfg : settings) (i : Z) : M (env_rng E) particle :=
  dx <- randint (-100) 100 ;;
  let start_x := center_x + dx in
  dy <- randint (-50) 50 ;;
  let start_y := center_y + dy in
  angle <- uniform E 0 (2 * PI) ;;
  d <- uniform E 200 400 ;;
  let distance := (d * speed_multiplier cfg)%R in
  let end_x := (IZR start_x + cos angle * distance)%R in
  let end_y := (IZR start_y + sin angle * distance)%R in
  let end_x := clamp width end_x in
  let end_y := clamp height end_y in
  let color :=
    if negb (i mod 3 =? 0) then primary_color cfg else secondary_color cfg in
  ds <- randint (-4) 4 ;;
  let size := particle_size cfg + ds in
  ret (mk_particle start_x start_y end_x end_y color size).

(** Lines 43-71: the loop that fills [particles]. *)
Fixpoint gen_particles (cfg : settings) (idx : list Z)
  : M (env_rng E) (list particle) :=
  match idx with
  | [] => ret []
  | i :: idx' =>
      p <- gen_particle cfg i ;;
      ps <- gen_particles cfg idx' ;;
      ret (p :: ps)
  end.

Definition num_str (n : num) : string :=
  match n with
  | NInt z => str_Z z
  | NFloat r => env_repr_float E r
  end.

Fixpoint expr_str (e : expr) : string :=
  match e with
  | ENum n => num_str n
  | ETime => "t"
  | EAdd a b => expr_str a ++ "+" ++ expr_str b
  | ESub a b => expr_str a ++ "-" ++ expr_str b
  | EMul a b => expr_str a ++ "*" ++ expr_str b
  | EDiv a b => expr_str a ++ "/" ++ expr_str b
  | EParen a => "(" ++ expr_str a ++ ")"
  | ECall f a => f ++ "(" ++ expr_str a ++ ")"
  end.

Definition optval_str (v : optval) : string :=
  match v with
  | OText s => s
  | OSize w h => str_Z w ++ "x" ++ str_Z h
  | OInt z => str_Z z
  | OFloat r => env_repr_float E r
  | OQuoted e => "'" ++ expr_str e ++ "'"
  end.

Definition opts_str (opts : list (string * optval)) : string :=
  String.concat ":" (map (fun kv => fst kv ++ "=" ++ optval_str (snd kv)) opts).

Definition filter_str (f : filter) : string :=
  String.concat "" (map (fun l => "[" ++ l ++ "]") (f_inputs f))
  ++ f_name f ++ "=" ++ opts_str (f_opts f)
  ++ "[" ++ f_output f ++ "]".

(** Lines 103-119. *)
Definition build_cmd (cfg : settings) (filters : list filter)
           (final_output output_path : string) : list string :=
  let filter_complex := String.concat ";" (map filter_str filters) in
  [ "ffmpeg"; "-y";
    "-f"; "lavfi";
    "-i"; "color=c=" ++ bg_color cfg ++ ":s=" ++ str_Z width ++ "x"
          ++ str_Z height ++ ":d=" ++ env_repr_float E duration
          ++ ":r=" ++ str_Z fps;
    "-filter_complex"; filter_complex;
    "-map"; "[" ++ final_output ++ "]";
    "-c:v"; "libx264";
    "-pix_fmt"; "yuv420p";
    "-crf"; "15";
    "-preset"; "slow";
    "-movflags"; "+faststart";
    "-r"; str_Z fps;
    output_path ].

(** Lines 11-138. *)
Definition create_dramatic_celebration_video (rarity output_path : string)
  : M (state E) bool :=
  let cfg := rarity_settings rarity in
  particles <- with_rng E (gen_particles cfg (range (particle_count cfg))) ;;
  let filters := build_filters cfg particles in
  let cmd := build_cmd cfg filters (final_output particles) output_path in
  print E ("Generating DRAMATIC " ++ rarity ++ " celebration video with "
           ++ str_Z (particle_count cfg) ++ " particles...") ;;;
  result <- subprocess_run E cmd 120 ;;
  match result with
  | Completed returncode stderr =>
      if returncode =? 0 then
        print E ("✅ Successfully created " ++ output_path) ;;;
        bytes <- getsize output_path ;;
        match bytes with
        | Some n =>
            let file_size := (IZR n / 1024)%R in
            print E ("   File size: " ++ denv_format_1f D file_size ++ " KB") ;;;
            ret true
        | None =>
            print E "❌ FFmpeg not found. Please install FFmpeg first." ;;;
            ret false
        end
      else
        print E ("❌ FFmpeg error: " ++ stderr) ;;;
        ret false
  | TimeoutExpired =>
      print E ("❌ Timeout generating " ++ rarity ++ " video") ;;;
      ret false
  | FileNotFoundError =>
      print E "❌ FFmpeg not found. Please install FFmpeg first." ;;;
      ret false
  end.

(** The [for] loop of [main] (lines 146-152). *)
Fixpoint main_loop (rs : list string) : M (state E) bool :=
  match rs with
  | [] => ret true
  | rarity :: rs' =>
      success <- create_dramatic_celebration_video rarity
                   (output_path_of rarity) ;;
      if negb success then
        print E ("Failed to create " ++ rarity ++ " video") ;;;
        ret false
      else main_loop rs'
  end.

(** Lines 140-160. *)
Definition main : M (state E) bool :=
  emit E (Makedirs output_dir) ;;;
  completed <- main_loop rarities ;;
  if completed then
    print E (String (ascii_of_nat 10)
               "🎉 All DRAMATIC celebration videos generated successfully!") ;;;
    print E "These videos feature:" ;;;
    print E "- Large, visible particles (12-20px)" ;;;
    print E "- Explosive outward movement" ;;;
    print E "- Rarity-specific colors and particle counts" ;;;
    print E "- High quality encoding (CRF 15)" ;;;
    ret true
  else ret false.

(** Lines 162-163. *)
Definition script : M (state E) Z :=
  main ;;; ret 0.

(** The particles of a call started with the generator in state [g]. *)
Definition particles_of (rarity : string) (g : env_rng E) : list particle :=
  fst (gen_particles (rarity_settings rarity)
         (range (particle_count (rarity_settings rarity))) g).

Definition filters_of (rarity : string) (g : env_rng E) : list filter :=
  build_filters (rarity_settings rarity) (particles_of rarity g).

(** The command of a call started with the generator in state [g]. *)
Definition job_cmd (rarity output_path : string) (g : env_rng E)
  : list string :=
  build_cmd (rarity_settings rarity) (filters_of rarity g)
            (final_output (particles_of rarity g)) output_path.

End Pipeline.

(** A concrete environment: [randint(a, b)] cycles through [a .. b] as the
    counter advances. *)
Definition demo_randint (a b : Z) (n : nat) : Z * nat :=
  (a + Z.of_nat n mod (b - a + 1), S n).

Definition demo_denv (outcome : list string -> run_result)
           (filesize : string -> option Z) : denv :=
  mk_denv (demo_env outcome) demo_randint (fun path _ => filesize path)
          (fun _ => "<kb>").

End Dramatic.

(** What [create_dramatic_celebration_video] returns and prints after the
    run of the encoder, given the result of the run and of
    [os.path.getsize] (lines 123-138). *)
Definition dramatic_ok (r : run_result) (bytes : option Z) : bool :=
  match r with
  | Completed returncode _ =>
      (returncode =? 0)
      && match bytes with Some _ => true | None => false end
  | _ => false
  end.

Definition dramatic_prints (D : Dramatic.denv) (rarity output_path : string)
           (r : run_result) (bytes : option Z) : list event :=
  match r with
  | Completed returncode stderr =>
      if returncode =? 0 then
        Print ("✅ Successfully created " ++ output_path)
        :: match bytes with
           | Some n =>
               [Print ("   File size: "
                       ++ Dramatic.denv_format_1f D (IZR n / 1024)%R ++ " KB")]
           | None =>
               [Print "❌ FFmpeg not found. Please install FFmpeg first."]
           end
      else [Print ("❌ FFmpeg error: " ++ stderr)]
  | TimeoutExpired => [Print ("❌ Timeout generating " ++ rarity ++ " video")]
  | FileNotFoundError =>
      [Print "❌ FFmpeg not found. Please install FFmpeg first."]
  end.

(** ** Properties *)

(** *** The strings handed to ffmpeg, on examples *)

Example bg_filter_string :
  filter_str (demo_env encoder_ok) bg_filter
  = "color=c=black@0.0:s=720x1280:d=<float>:r=30[bg]".
Proof. reflexivity. Qed.

Example first_overlay_string (ex ey : R) :
  filter_str (demo_env encoder_ok) (overlay_of ["bg"; "p0"] ex ey "tmp0")
  = "[bg][p0]overlay=x='360+(<float>-360)*t/<float>':y='426+(<float>-426)*t/<float>':eval=frame:format=auto[tmp0]".
Proof. reflexivity. Qed.

Example ray_source_string (r : burst_ray) :
  r_index r = 7 ->
  option_map (filter_str (demo_env encoder_ok))
             (nth_error (ray_filters "ray_tmp6" r) 0)
  = Some "color=c=#FFD700:s=2x20:d=<float>:r=30[ray7]".
Proof. intro H. cbn [ray_filters nth_error option_map]. now rewrite H. Qed.

Example labels_of_index_12 :
  (lbl_p 12, lbl_tmp 12, input_layer 12, input_layer 0, lbl_ray_tmp 31)
  = ("p12", "tmp12", "tmp11", "bg", "ray_tmp31").
Proof. reflexivity. Qed.

Example centre_point : (center_x, center_y) = (360, 426).
Proof. reflexivity. Qed.

Example settings_of_tiers :
  map (fun r => (particle_count (rarity_settings r), rays_enabled r))
      ["common"; "uncommon"; "rare"; "epic"]
  = [(30, 0); (60, 32); (100, 48); (100, 32)].
Proof. reflexivity. Qed.

(** Unfolds one iteration of the particle loop and names its draws. *)
Ltac particle_draws :=
  unfold gen_particle, uniform, random, bind, ret;
  repeat match goal with
         | |- context [env_random ?E ?g] =>
             is_var g; destruct (env_random E g) as [? ?]; cbn [snd fst]
         end.

Section LoopFacts.

Variable E : env.

Lemma gen_particles_length (colors : list string) (idx : list Z)
      (g : env_rng E) :
  List.length (fst (gen_particles E colors idx g)) = List.length idx.
Proof.
  revert g; induction idx as [|i idx IH]; intro g; [reflexivity|].
  cbn [gen_particles]; unfold bind.
  destruct (gen_particle E colors i g) as [p g1].
  specialize (IH g1).
  destruct (gen_particles E colors idx g1) as [ps g2].
  simpl in *; now rewrite IH.
Qed.

(** The filter loop appends, particle by particle, the filters of the
    particles that [gen_particles] lists, and leaves the generator in the
    same state. *)
Lemma particle_loop_spec (colors : list string) (idx : list Z)
      (fs : list filter) (g : env_rng E) :
  particle_loop E colors idx fs g =
  ((fs ++ flat_map particle_filters (fst (gen_particles E colors idx g)))%list,
   snd (gen_particles E colors idx g)).
Proof.
  revert fs g; induction idx as [|i idx IH]; intros fs g.
  - cbn; unfold ret; now rewrite app_nil_r.
  - cbn [particle_loop gen_particles]; unfold bind.
    destruct (gen_particle E colors i g) as [p g1].
    rewrite IH.
    destruct (gen_particles E colors idx g1) as [ps g2].
    cbn [fst snd ret flat_map]. now rewrite <- app_assoc.
Qed.


Lemma gen_particle_index (colors : list string) (i : Z) (g : env_rng E) :
  p_index (fst (gen_particle E colors i g)) = i.
Proof. particle_draws. reflexivity. Qed.


Lemma gen_particles_index (colors : list string) (idx : list Z)
      (g : env_rng E) :
  map p_index (fst (gen_particles E colors idx g)) = idx.
Proof.
  revert g; induction idx as [|i idx IH]; intro g; [reflexivity|].
  cbn [gen_particles]; unfold bind.
  pose proof (gen_particle_index colors i g) as Hi.
  destruct (gen_particle E colors i g) as [p g1].
  specialize (IH g1).
  destruct (gen_particles E colors idx g1) as [ps g2].
  cbn in *. now rewrite Hi, IH.
Qed.



Lemma range_length (n : Z) : List.length (range n) = Z.to_nat n.
Proof. unfold range. now rewrite length_map, length_seq. Qed.

(** Every predicate that holds of one particle whatever the state it is
    drawn from holds of all the particles of a run. *)
Lemma gen_particles_Forall (P : particle -> Prop) (colors : list string) :
  (forall i g, P (fst (gen_particle E colors i g))) ->
  forall idx g, Forall P (fst (gen_particles E colors idx g)).
Proof.
  intros HP idx; induction idx as [|i idx IH]; intro g; [constructor|].
  cbn [gen_particles]; unfold bind.
  pose proof (HP i g) as Hi.
  destruct (gen_particle E colors i g) as [p g1].
  specialize (IH g1).
  destruct (gen_particles E colors idx g1) as [ps g2].
  cbn in *. now constructor.
Qed.

End LoopFacts.

Section Simulation.

Variable E : env.

Lemma particles_of_eq (rarity : string) (g : env_rng E) :
  particles_of E rarity g =
  fst (gen_particles E (particle_colors (rarity_settings rarity))
         (range (particle_count (rarity_settings rarity)))
         (env_seed E 42)).
Proof.
  unfold particles_of, simulate, bind, seed, ret.
  now destruct (gen_particles E _ _ (env_seed E 42)).
Qed.

Lemma rays_of_eq (rarity : string) (g : env_rng E) :
  rays_of E rarity g = gen_rays rarity.
Proof.
  unfold rays_of, simulate, bind, seed, ret.
  now destruct (gen_particles E _ _ (env_seed E 42)).
Qed.

Lemma particle_and_ray_counts_general (rarity : string) (g : env_rng E) :
  List.length (particles_of E rarity g)
  = Z.to_nat (particle_count (rarity_settings rarity))
  /\ List.length (rays_of E rarity g)
     = if str_in "burst_rays" (effects (rarity_settings rarity))
       then Z.to_nat (ray_count_of rarity) else 0%nat.
Proof.
  rewrite particles_of_eq, rays_of_eq.
  rewrite gen_particles_length, range_length. split; [reflexivity|].
  unfold gen_rays.
  destruct (str_in "burst_rays" (effects (rarity_settings rarity)));
    [|reflexivity].
  now rewrite length_map, range_length.
Qed.



End Simulation.

Section Particles.

Variable E : env.

Lemma ray_loop_spec (rc : Z) (rays : list Z) (fs : list filter)
      (fl : string) :
  ray_loop rc rays (fs, fl) =
  ((fs ++ ray_chain rc fl rays)%list,
   fold_left (fun _ r => lbl_ray_tmp r) rays fl).
Proof.
  revert fs fl; induction rays as [|r rays IH]; intros fs fl.
  - cbn. now rewrite app_nil_r.
  - cbn [ray_loop ray_chain fold_left]. now rewrite IH, <- app_assoc.
Qed.

(** The graph of a run, in closed form: the background, the two filters of
    every particle in generation order, then the two filters of every
    ray. *)
Lemma filters_of_eq (rarity : string) (g : env_rng E) :
  filters_of E rarity g =
  (bg_filter
     :: flat_map particle_filters (particles_of E rarity g)
     ++ (if str_in "burst_rays" (effects (rarity_settings rarity))
         then ray_chain (ray_count_of rarity)
                (particles_final (particle_count (rarity_settings rarity)))
                (range (ray_count_of rarity))
         else []))%list.
Proof.
  rewrite particles_of_eq.
  unfold filters_of, build_filters, bind, seed, ret.
  rewrite particle_loop_spec. cbn [fst snd].
  fold (particles_final (particle_count (rarity_settings rarity))).
  destruct (str_in "burst_rays" (effects (rarity_settings rarity))).
  - rewrite ray_loop_spec. cbn [fst]. reflexivity.
  - cbn [fst]. now rewrite app_nil_r.
Qed.


(** C2. End position of a particle, as the code computes it from the
    particle's own angle and velocity draws: the x coordinate is the one
    the specification prescribes; the y coordinate is 2/3 of a pixel above
    it for every particle, because [center_y = height // 3] is 426 and not
    1280/3. The tolerance 1e-9 is exceeded. *)
Theorem end_position_uses_floor_of_height_third
        (rarity : string) (g : env_rng E) :
  center_y = 426
  /\ Forall (fun p =>
       p_end_x p = (IZR center_x + cos (p_angle p) * (432 * p_velocity p))%R
       /\ p_end_y p = (IZR center_y + sin (p_angle p) * (432 * p_velocity p))%R
       /\ p_end_x p = fst (spec_end_position (p_angle p) (p_velocity p))
       /\ p_end_y p
          = (snd (spec_end_position (p_angle p) (p_velocity p)) - 2 / 3)%R
       /\ (Rabs (p_end_y p
                 - snd (spec_end_position (p_angle p) (p_velocity p)))
           > 1e-9)%R)
     (particles_of E rarity g).
Proof.
  split; [reflexivity|].
  rewrite particles_of_eq. apply gen_particles_Forall. intros i g0.
  unfold gen_particle, uniform, random, bind, ret.
  destruct (env_random E g0) as [u1 g1].
  destruct (env_random E g1) as [u2 g2].
  destruct (env_random E g2) as [u3 g3].
  cbn [fst p_end_x p_end_y p_angle p_velocity].
  unfold spec_end_position, spec_center, spec_radius.
  cbn [fst snd].
  change (Z.min width height) with 720.
  change center_x with 360. change center_y with 426.
  change width with 720. change height with 1280.
  set (a := (0 + (2 * PI - 0) * u1)%R).
  set (v := (0.0 + (1.0 - 0.0) * u2)%R).
  assert (Hy : (426 + sin a * (432 * v)
                = 1280 / 3 + 0.6 * 720 * v * sin a - 2 / 3)%R) by lra.
  repeat split; try reflexivity; try lra.
  rewrite Hy.
  replace (1280 / 3 + 0.6 * 720 * v * sin a - 2 / 3
           - (1280 / 3 + 0.6 * 720 * v * sin a))%R with (- (2 / 3))%R by lra.
  rewrite Rabs_Ropp, Rabs_pos_eq; lra.
Qed.



End Particles.



(** ** The composition graph *)

Lemma str_in_In (s : string) (l : list string) :
  str_in s l = true <-> In s l.
Proof.
  unfold str_in. rewrite existsb_exists. split.
  - intros [x [Hx Heq]]. apply String.eqb_eq in Heq. now subst.
  - intro H. exists s. split; [exact H|apply String.eqb_refl].
Qed.

Lemma nodupb_sound (l : list string) : nodupb l = true -> NoDup l.
Proof.
  induction l as [|x l IH]; intro H; [constructor|].
  cbn in H. apply andb_prop in H as [Hx Hl].
  constructor; [|now apply IH].
  intro Hin. apply str_in_In in Hin. rewrite Hin in Hx. discriminate.
Qed.

Lemma reads_earlierb_sound (ws : list (list string * string)) :
  forall seen, reads_earlierb seen ws = true -> reads_earlier seen ws.
Proof.
  induction ws as [|[ins out] ws IH]; intros seen H; [exact I|].
  cbn in H. apply andb_prop in H as [Hins Hws].
  split; [|now apply IH].
  intros l Hl. rewrite forallb_forall in Hins.
  apply str_in_In. now apply Hins.
Qed.

Lemma linear_chainb_sound (ws : list (list string * string)) (final : string) :
  linear_chainb ws final = true -> linear_chain ws final.
Proof.
  unfold linear_chainb, linear_chain. intro H.
  apply andb_prop in H as [H Hfin].
  apply andb_prop in H as [H Hcount].
  apply andb_prop in H as [Hnd Hearlier].
  apply str_in_In in Hfin. rewrite forallb_forall in Hcount.
  split; [now apply nodupb_sound|].
  split; [now apply reads_earlierb_sound|].
  split.
  - intros l Hl Hne. specialize (Hcount l Hl).
    apply Nat.eqb_eq in Hcount. rewrite Hcount.
    destruct (String.eqb l final) eqn:Heq; [|reflexivity].
    apply String.eqb_eq in Heq. contradiction.
  - split; [exact Hfin|].
    specialize (Hcount final Hfin). apply Nat.eqb_eq in Hcount.
    now rewrite String.eqb_refl in Hcount.
Qed.

(** The four shapes a graph can take: the three tiers, and the shape of a
    rarity that falls through to the [else] branch without being 'rare'. *)
Lemma skeleton_common_chain : linear_chain (skeleton 30 0) (final_label 30 0).
Proof. apply linear_chainb_sound. vm_compute. reflexivity. Qed.

Lemma skeleton_uncommon_chain :
  linear_chain (skeleton 60 32) (final_label 60 32).
Proof. apply linear_chainb_sound. vm_compute. reflexivity. Qed.

Lemma skeleton_rare_chain :
  linear_chain (skeleton 100 48) (final_label 100 48).
Proof. apply linear_chainb_sound. vm_compute. reflexivity. Qed.

Lemma skeleton_other_chain :
  linear_chain (skeleton 100 32) (final_label 100 32).
Proof. apply linear_chainb_sound. vm_compute. reflexivity. Qed.








Section Graph.

Variable E : env.





End Graph.


Lemma particle_filters_wires (ps : list particle) :
  map wire (flat_map particle_filters ps)
  = flat_map particle_wires (map p_index ps).
Proof.
  induction ps as [|p ps IH]; [reflexivity|].
  cbn [flat_map map]. rewrite map_app, IH. reflexivity.
Qed.

Lemma ray_chain_wires (n rc : Z) (k : nat) :
  forall s : nat,
    map wire (ray_chain rc (ray_input n (Z.of_nat s))
                        (map Z.of_nat (seq s k)))
    = flat_map (ray_wires n) (map Z.of_nat (seq s k)).
Proof.
  induction k as [|k IH]; intro s; [reflexivity|].
  cbn [seq map ray_chain flat_map]. rewrite map_app.
  f_equal. rewrite <- IH. do 3 f_equal.
  unfold ray_input.
  replace (Z.of_nat (S s) =? 0) with false by (symmetry; apply Z.eqb_neq; lia).
  f_equal. f_equal. lia.
Qed.

(** The settings a rarity string can resolve to. *)
Lemma rarity_cases (rarity : string) :
  rarity = "common" \/ rarity = "uncommon" \/ rarity = "rare"
  \/ (rarity_settings rarity = rarity_settings "rare"
      /\ ray_count_of rarity = 32
      /\ rarity <> "common" /\ rarity <> "uncommon" /\ rarity <> "rare").
Proof.
  destruct (String.eqb rarity "common") eqn:Hc;
    [apply String.eqb_eq in Hc; now left|].
  destruct (String.eqb rarity "uncommon") eqn:Hu;
    [apply String.eqb_eq in Hu; now (right; left)|].
  destruct (String.eqb rarity "rare") eqn:Hr;
    [apply String.eqb_eq in Hr; now (right; right; left)|].
  right; right; right.
  unfold rarity_settings, ray_count_of. rewrite Hc, Hu, Hr.
  repeat split; try reflexivity; now apply String.eqb_neq.
Qed.

Section Chain.

Variable E : env.

Lemma filters_of_wires (rarity : string) (g : env_rng E) :
  map wire (filters_of E rarity g)
  = skeleton (particle_count (rarity_settings rarity))
             (rays_enabled rarity).
Proof.
  rewrite filters_of_eq. unfold skeleton, rays_enabled.
  cbn [map]. rewrite map_app, particle_filters_wires.
  rewrite particles_of_eq, gen_particles_index.
  do 2 f_equal.
  destruct (str_in "burst_rays" (effects (rarity_settings rarity)));
    [|reflexivity].
  unfold range. apply (ray_chain_wires _ _ _ 0%nat).
Qed.

Lemma final_layer_of_eq (rarity : string) (g : env_rng E) :
  final_layer_of E rarity g
  = if str_in "burst_rays" (effects (rarity_settings rarity))
    then fold_left (fun _ r => lbl_ray_tmp r) (range (ray_count_of rarity))
           (particles_final (particle_count (rarity_settings rarity)))
    else particles_final (particle_count (rarity_settings rarity)).
Proof.
  unfold final_layer_of, build_filters, bind, seed, ret.
  rewrite particle_loop_spec. cbn [fst snd].
  fold (particles_final (particle_count (rarity_settings rarity))).
  destruct (str_in "burst_rays" (effects (rarity_settings rarity)));
    [|reflexivity].
  now rewrite ray_loop_spec.
Qed.

Lemma final_layer_of_label (rarity : string) (g : env_rng E) :
  final_layer_of E rarity g
  = final_label (particle_count (rarity_settings rarity))
                (rays_enabled rarity).
Proof.
  rewrite final_layer_of_eq. unfold rays_enabled.
  destruct (rarity_cases rarity)
    as [-> | [-> | [-> | [Hcfg [Hrays _]]]]];
    try reflexivity.
  rewrite Hcfg, Hrays. reflexivity.
Qed.

(** C7. Order and chaining of the graph: the filters are, in this order,
    the background, then for each particle [i = 0 .. n-1] its colour source
    and its overlay onto the previous result ([bg] for [i = 0], else
    [tmp<i-1>]), then for each ray its colour source and its overlay onto
    the previous result. No label is declared twice, every operation reads
    labels declared before it, every label except the final one is read
    exactly once, and the final label is the one given to [-map]. *)
Theorem graph_is_one_linear_chain
        (rarity output_path : string) (g : env_rng E) :
  let n := particle_count (rarity_settings rarity) in
  let m := rays_enabled rarity in
  let fs := filters_of E rarity g in
  let final := final_layer_of E rarity g in
  let cmd := build_cmd E fs final output_path in
  map wire fs = skeleton n m
  /\ final = final_label n m
  /\ linear_chain (map wire fs) final
  /\ nth_error cmd 6 = Some "-filter_complex"
  /\ nth_error cmd 7 = Some (String.concat ";" (map (filter_str E) fs))
  /\ nth_error cmd 8 = Some "-map"
  /\ nth_error cmd 9 = Some ("[" ++ final ++ "]").
Proof.
  intros n m fs final cmd. subst n m fs final cmd.
  rewrite filters_of_wires, final_layer_of_label.
  split; [reflexivity|]. split; [reflexivity|].
  split; [|repeat split].
  unfold rays_enabled.
  destruct (rarity_cases rarity)
    as [-> | [-> | [-> | [Hcfg [Hrays _]]]]].
  - exact skeleton_common_chain.
  - exact skeleton_uncommon_chain.
  - exact skeleton_rare_chain.
  - rewrite Hcfg, Hrays. exact skeleton_other_chain.
Qed.

End Chain.

(** ** The job and the batch driver *)

Lemma spawned_app (l1 l2 : list event) :
  spawned (l1 ++ l2) = (spawned l1 ++ spawned l2)%list.
Proof. apply flat_map_app. Qed.

Lemma spawned_result_prints (rarity output_path : string) (r : run_result) :
  spawned (result_prints rarity output_path r) = [].
Proof. destruct r as [rc err| |]; [cbn; destruct (rc =? 0)|..]; reflexivity. Qed.

Section Driver.

Variable E : env.

(** One call of [create_celebration_video], in closed form: the generator
    is re-seeded, the command of the tier is printed and run once, and the
    value returned is read off the result of the run. *)
Lemma create_celebration_video_spec (rarity output_path : string)
      (st : state E) :
  create_celebration_video E rarity output_path st =
  let cmd := job_cmd E rarity output_path in
  let r := env_run E cmd (st_os st) in
  (result_ok (fst r),
   mk_state (snd (build_filters E rarity (env_seed E 42))) (snd r)
     (st_log st
      ++ [Print ("Generating " ++ rarity ++ " celebration video...");
          Print ("Command: " ++ String.concat " " (firstn 10 cmd) ++ "...");
          Spawn cmd 60]
      ++ result_prints rarity output_path (fst r))%list).
Proof.
  unfold create_celebration_video, job_cmd, filters_of, final_layer_of,
    bind, with_rng.
  change (build_filters E rarity (st_rng st))
    with (build_filters E rarity (env_seed E 42)).
  destruct (build_filters E rarity (env_seed E 42)) as [[fs fl] g'].
  cbn [fst snd].
  unfold print, emit, subprocess_run, ret; cbn [st_rng st_os st_log].
  destruct (env_run E (build_cmd E fs fl output_path) (st_os st)) as [r o].
  cbn [fst snd].
  destruct r as [rc err| |]; [cbn [result_ok result_prints];
                              destruct (rc =? 0)|..];
    cbn [st_rng st_os st_log]; rewrite <- ?app_assoc; reflexivity.
Qed.

Lemma create_spawns_once (rarity output_path : string) (st : state E) :
  spawned (st_log (snd (create_celebration_video E rarity output_path st)))
  = (spawned (st_log st) ++ [job_cmd E rarity output_path])%list.
Proof.
  rewrite create_celebration_video_spec. cbn [snd st_log].
  rewrite !spawned_app, spawned_result_prints. reflexivity.
Qed.

Lemma create_returns (rarity output_path : string) (st : state E) :
  fst (create_celebration_video E rarity output_path st)
  = result_ok (fst (env_run E (job_cmd E rarity output_path) (st_os st))).
Proof. now rewrite create_celebration_video_spec. Qed.

Lemma main_loop_failure (rarity : string) (rest : list string)
      (st : state E) :
  fst (job E rarity st) = false ->
  main_loop E (rarity :: rest) st
  = (false,
     snd (print E ("Failed to create " ++ rarity ++ " video")
            (snd (job E rarity st)))).
Proof.
  intro Hfail. cbn [main_loop]. unfold bind, job in *.
  destruct (create_celebration_video E rarity (output_path_of rarity) st)
    as [b st1].
  cbn [fst snd] in *. subst b. reflexivity.
Qed.

Lemma main_loop_success (rarity : string) (rest : list string)
      (st : state E) :
  fst (job E rarity st) = true ->
  main_loop E (rarity :: rest) st = main_loop E rest (snd (job E rarity st)).
Proof.
  intro Hok. cbn [main_loop]. unfold bind, job in *.
  destruct (create_celebration_video E rarity (output_path_of rarity) st)
    as [b st1].
  cbn [fst snd] in *. subst b. reflexivity.
Qed.

(** C1. Determinism: [create_celebration_video] starts its simulation with
    [random.seed(42)], so two runs for the same rarity, started in any two
    states of the world (generator, operating system, log), compute the same
    ordered particles (angle, velocity, end position, size, colour), the same
    burst rays and the same filter graph, hand the same command to the
    encoder, and leave the generator in the same state. *)
Theorem seeded_simulation_is_deterministic
        (rarity output_path : string) (st1 st2 : state E) :
  simulate E rarity (st_rng st1) = simulate E rarity (st_rng st2)
  /\ particles_of E rarity (st_rng st1) = particles_of E rarity (st_rng st2)
  /\ rays_of E rarity (st_rng st1) = rays_of E rarity (st_rng st2)
  /\ build_filters E rarity (st_rng st1) = build_filters E rarity (st_rng st2)
  /\ (exists cmd,
        spawned (st_log (snd (create_celebration_video E rarity output_path
                                st1)))
        = (spawned (st_log st1) ++ [cmd])%list
        /\ spawned (st_log (snd (create_celebration_video E rarity output_path
                                   st2)))
           = (spawned (st_log st2) ++ [cmd])%list)
  /\ st_rng (snd (create_celebration_video E rarity output_path st1))
     = st_rng (snd (create_celebration_video E rarity output_path st2)).
Proof.
  do 4 (split; [reflexivity|]). split.
  - exists (job_cmd E rarity output_path).
    split; apply create_spawns_once.
  - now rewrite !create_celebration_video_spec.
Qed.

(** C3 (amended). A rarity outside the three tiers is not rejected: it
    takes the [else] branch, that is the settings of the rare tier (100
    particles, burst rays) with 32 rays, and the encoder is run, once, on
    the graph so built; the call returns what the run yields. *)
Theorem unknown_rarity_is_rendered_as_rare
        (rarity output_path : string) (st : state E) :
  rarity <> "common" -> rarity <> "uncommon" -> rarity <> "rare" ->
  rarity_settings rarity = rarity_settings "rare"
  /\ List.length (particles_of E rarity (st_rng st)) = 100%nat
  /\ List.length (rays_of E rarity (st_rng st)) = 32%nat
  /\ spawned (st_log (snd (create_celebration_video E rarity output_path st)))
     = (spawned (st_log st) ++ [job_cmd E rarity output_path])%list
  /\ fst (create_celebration_video E rarity output_path st)
     = result_ok (fst (env_run E (job_cmd E rarity output_path) (st_os st))).
Proof.
  intros Hc Hu Hr.
  destruct (rarity_cases rarity)
    as [-> | [-> | [-> | [Hcfg [Hrays _]]]]]; try contradiction.
  split; [exact Hcfg|].
  destruct (particle_and_ray_counts_general E rarity (st_rng st))
    as [Hps Hrs].
  rewrite Hps, Hrs, Hcfg, Hrays.
  repeat split; [apply create_spawns_once|apply create_returns].
Qed.

(** C4 (amended). The batch stops at the first failure: when the job of a
    tier returns [False], the loop prints that it failed and returns
    [False] at once; whatever tiers remain, the only encoder run since the
    job started is that of the failed tier. *)
Theorem failed_tier_stops_the_batch
        (rarity : string) (rest : list string) (st : state E) :
  fst (job E rarity st) = false ->
  fst (main_loop E (rarity :: rest) st) = false
  /\ st_log (snd (main_loop E (rarity :: rest) st))
     = (st_log (snd (job E rarity st))
        ++ [Print ("Failed to create " ++ rarity ++ " video")])%list
  /\ spawned (st_log (snd (main_loop E (rarity :: rest) st)))
     = (spawned (st_log st)
        ++ [job_cmd E rarity (output_path_of rarity)])%list.
Proof.
  intro Hfail. rewrite (main_loop_failure rarity rest st Hfail).
  cbn [fst snd print emit st_log].
  repeat split.
  rewrite spawned_app. unfold job. rewrite create_spawns_once.
  cbn. now rewrite app_nil_r.
Qed.

Lemma main_returns (st : state E) :
  fst (main E st) = all_tiers_succeed E st.
Proof.
  unfold main, all_tiers_succeed, bind, rarities.
  destruct (emit E (Makedirs output_dir) st) as [[] st0]. cbn [snd].
  destruct (fst (job E "common" st0)) eqn:H1;
    [rewrite (main_loop_success _ _ _ H1)
    |rewrite (main_loop_failure _ _ _ H1); reflexivity].
  destruct (fst (job E "uncommon" (snd (job E "common" st0)))) eqn:H2;
    [rewrite (main_loop_success _ _ _ H2)
    |rewrite (main_loop_failure _ _ _ H2); reflexivity].
  destruct (fst (job E "rare"
                   (snd (job E "uncommon" (snd (job E "common" st0))))))
    eqn:H3;
    [rewrite (main_loop_success _ _ _ H3)
    |rewrite (main_loop_failure _ _ _ H3); reflexivity].
  reflexivity.
Qed.

(** C5 (amended). [main] returns [True] exactly when the jobs of the three
    tiers all succeeded, and [False] as soon as one failed; the script
    drops that value: it ends in the state [main] reached with exit status
    0 in either case. *)
Theorem main_reports_by_return_value_only (st : state E) :
  fst (main E st) = all_tiers_succeed E st
  /\ fst (script E st) = 0
  /\ snd (script E st) = snd (main E st).
Proof.
  split; [apply main_returns|].
  unfold script, bind, ret. destruct (main E st) as [b st']. now split.
Qed.

End Driver.

(** ** Closed examples in the concrete environment *)

Lemma last_job_cmd (E : env) (rarity output_path : string) :
  last (job_cmd E rarity output_path) "" = output_path.
Proof. reflexivity. Qed.

Lemma main_when_first_tier_fails (E : env) (st : state E) :
  fst (job E "common" (snd (emit E (Makedirs output_dir) st))) = false ->
  main E st
  = (false,
     snd (print E "Failed to create common video"
            (snd (job E "common" (snd (emit E (Makedirs output_dir) st)))))).
Proof.
  intro Hfail. unfold main, bind, rarities.
  destruct (emit E (Makedirs output_dir) st) as [[] st0]. cbn [snd] in *.
  now rewrite (main_loop_failure E _ _ _ Hfail).
Qed.

Lemma unknown_rarity_witness :
  rarity_settings "epic" = rarity_settings "rare"
  /\ List.length (particles_of (demo_env encoder_ok) "epic" 0%nat) = 100%nat
  /\ List.length (rays_of (demo_env encoder_ok) "epic" 0%nat) = 32%nat
  /\ spawned (st_log (snd (create_celebration_video (demo_env encoder_ok)
                             "epic" "epic.mp4" (demo_state encoder_ok))))
     = [job_cmd (demo_env encoder_ok) "epic" "epic.mp4"]
  /\ fst (create_celebration_video (demo_env encoder_ok)
            "epic" "epic.mp4" (demo_state encoder_ok))
     = true.
Proof.
  apply (unknown_rarity_is_rendered_as_rare (demo_env encoder_ok)
           "epic" "epic.mp4" (demo_state encoder_ok)); discriminate.
Defined.

(** C3 (as stated) fails: with an encoder that accepts the graph, the call
    for rarity 'epic' runs the encoder and returns [True]. *)
Lemma epic_is_encoded :
  fst (create_celebration_video (demo_env encoder_ok)
         "epic" "epic.mp4" (demo_state encoder_ok)) = true
  /\ spawned (st_log (snd (create_celebration_video (demo_env encoder_ok)
                             "epic" "epic.mp4" (demo_state encoder_ok))))
     = [job_cmd (demo_env encoder_ok) "epic" "epic.mp4"].
Proof.
  split.
  - now rewrite create_returns.
  - now rewrite create_spawns_once.
Qed.

Lemma common_job_is_rejected (st : state (demo_env encoder_rejects_common)) :
  fst (job (demo_env encoder_rejects_common) "common" st) = false.
Proof.
  unfold job. rewrite create_returns.
  cbn [demo_env env_run fst]. unfold encoder_rejects_common.
  rewrite last_job_cmd, String.eqb_refl. reflexivity.
Qed.

Lemma other_jobs_are_accepted (st : state (demo_env encoder_rejects_common)) :
  fst (job (demo_env encoder_rejects_common) "uncommon" st) = true
  /\ fst (job (demo_env encoder_rejects_common) "rare" st) = true.
Proof.
  unfold job. rewrite !create_returns.
  cbn [demo_env env_run fst]. unfold encoder_rejects_common.
  rewrite !last_job_cmd. split; reflexivity.
Qed.

Lemma failed_tier_witness :
  fst (main_loop (demo_env encoder_rejects_common)
         ("common" :: ["uncommon"; "rare"])
         (demo_state encoder_rejects_common)) = false
  /\ st_log (snd (main_loop (demo_env encoder_rejects_common)
                    ("common" :: ["uncommon"; "rare"])
                    (demo_state encoder_rejects_common)))
     = (st_log (snd (job (demo_env encoder_rejects_common) "common"
                       (demo_state encoder_rejects_common)))
        ++ [Print "Failed to create common video"])%list
  /\ spawned (st_log (snd (main_loop (demo_env encoder_rejects_common)
                             ("common" :: ["uncommon"; "rare"])
                             (demo_state encoder_rejects_common))))
     = [job_cmd (demo_env encoder_rejects_common) "common"
                (output_path_of "common")].
Proof.
  apply (failed_tier_stops_the_batch (demo_env encoder_rejects_common)
           "common" ["uncommon"; "rare"] (demo_state encoder_rejects_common)).
  apply common_job_is_rejected.
Defined.

(** C4 (as stated) fails: the encoder rejects the job of the common tier
    and would accept the other two; [main] returns [False] and the only
    command it has run is that of the common tier. *)
Lemma rejected_common_tier_ends_main :
  fst (main (demo_env encoder_rejects_common)
         (demo_state encoder_rejects_common)) = false
  /\ spawned (st_log (snd (main (demo_env encoder_rejects_common)
                             (demo_state encoder_rejects_common))))
     = [job_cmd (demo_env encoder_rejects_common) "common"
                (output_path_of "common")]
  /\ (forall st, fst (job (demo_env encoder_rejects_common) "uncommon" st)
                 = true)
  /\ (forall st, fst (job (demo_env encoder_rejects_common) "rare" st)
                 = true).
Proof.
  rewrite main_when_first_tier_fails by apply common_job_is_rejected.
  split; [reflexivity|]. split.
  - cbn [snd print emit st_log]. rewrite spawned_app.
    unfold job. rewrite create_spawns_once. reflexivity.
  - split; intro st; apply other_jobs_are_accepted.
Qed.

(** C5 (as stated) fails: with an encoder that rejects every graph the
    first tier fails, [main] returns [False], and the exit status of the
    script is 0. *)
Lemma failed_batch_exits_with_0 :
  fst (job (demo_env encoder_rejects) "common"
         (snd (emit (demo_env encoder_rejects) (Makedirs output_dir)
                 (demo_state encoder_rejects)))) = false
  /\ fst (main (demo_env encoder_rejects) (demo_state encoder_rejects))
     = false
  /\ fst (script (demo_env encoder_rejects) (demo_state encoder_rejects)) = 0.
Proof.
  assert (Hjob : fst (job (demo_env encoder_rejects) "common"
                        (snd (emit (demo_env encoder_rejects)
                                (Makedirs output_dir)
                                (demo_state encoder_rejects)))) = false).
  { unfold job. now rewrite create_returns. }
  split; [exact Hjob|]. split.
  - now rewrite main_when_first_tier_fails.
  - unfold script, bind, ret.
    now destruct (main (demo_env encoder_rejects) (demo_state encoder_rejects)).
Qed.

(** ** Further properties of [generate_celebration_videos.py] *)




Section MoreOnTheFirstScript.

Variable E : env.



End MoreOnTheFirstScript.


Lemma flat_map_pairs_length {A B : Type} (f : A -> list B) (l : list A) :
  (forall x, List.length (f x) = 2%nat) ->
  List.length (flat_map f l) = (2 * List.length l)%nat.
Proof.
  intro Hf. induction l as [|x l IH]; [reflexivity|].
  cbn [flat_map]. rewrite length_app, Hf, IH. cbn [List.length]. lia.
Qed.

Lemma skeleton_length (n m : Z) :
  List.length (skeleton n m) = (1 + 2 * Z.to_nat n + 2 * Z.to_nat m)%nat.
Proof.
  unfold skeleton. cbn [List.length]. rewrite length_app.
  rewrite !flat_map_pairs_length by reflexivity.
  rewrite !range_length. lia.
Qed.

Section MoreOnTheDriver.

Variable E : env.







End MoreOnTheDriver.


Section GraphSize.

Variable E : env.

Lemma particle_filters_kinds (p : particle) :
  Forall (fun f => f_name f = "color" \/ f_name f = "overlay")
         (particle_filters p).
Proof.
  unfold particle_filters.
  constructor; [left; reflexivity|].
  constructor; [right; reflexivity|]. constructor.
Qed.

Lemma ray_chain_kinds (rc : Z) (rays : list Z) :
  forall fl,
    Forall (fun f => f_name f = "color" \/ f_name f = "overlay")
           (ray_chain rc fl rays).
Proof.
  induction rays as [|r rays IH]; intro fl; [constructor|].
  cbn [ray_chain ray_filters app].
  constructor; [left; reflexivity|].
  constructor; [right; reflexivity|]. apply IH.
Qed.

(** X5. Size and content of the graph: a graph holds one background, two
    filters per particle and two per burst ray, each of them a colour source
    or an overlay: 61 filters for common, 185 for uncommon, 297 for rare.
    The effect 'shockwave' of the rare tier adds no filter. *)
Theorem graph_holds_sources_and_overlays_only
        (rarity : string) (g : env_rng E) :
  Forall (fun f => f_name f = "color" \/ f_name f = "overlay")
         (filters_of E rarity g)
  /\ List.length (filters_of E rarity g)
     = (1 + 2 * List.length (particles_of E rarity g)
        + 2 * List.length (rays_of E rarity g))%nat
  /\ List.length (filters_of E "common" g) = 61%nat
  /\ List.length (filters_of E "uncommon" g) = 185%nat
  /\ List.length (filters_of E "rare" g) = 297%nat
  /\ str_in "shockwave" (effects (rarity_settings "rare")) = true.
Proof.
  assert (Hlen : forall r,
             List.length (filters_of E r g)
             = (1 + 2 * Z.to_nat (particle_count (rarity_settings r))
                + 2 * Z.to_nat (rays_enabled r))%nat).
  { intro r. rewrite <- (length_map wire), filters_of_wires.
    apply skeleton_length. }
  split.
  - rewrite filters_of_eq. constructor; [left; reflexivity|].
    apply Forall_app; split.
    + apply Forall_flat_map, Forall_forall. intros p _.
      apply particle_filters_kinds.
    + destruct (str_in "burst_rays" (effects (rarity_settings rarity)));
        [apply ray_chain_kinds|constructor].
  - split.
    + rewrite Hlen.
      destruct (particle_and_ray_counts_general E rarity g) as [-> ->].
      unfold rays_enabled.
      destruct (str_in "burst_rays" (effects (rarity_settings rarity)));
        reflexivity.
    + rewrite !Hlen. repeat split.
Qed.

End GraphSize.

(** ** Properties of [generate_better_celebration_videos.py] *)

Lemma clamp_spec (bound : Z) (v : R) :
  0 < bound ->
  (0 <= Dramatic.num_val (Dramatic.clamp bound v) <= IZR bound)%R
  /\ match Dramatic.clamp bound v with
     | Dramatic.NInt z =>
         (z = 0 /\ (v <= 0)%R) \/ (z = bound /\ (IZR bound <= v)%R)
     | Dramatic.NFloat r => r = v /\ (0 < v < IZR bound)%R
     end.
Proof.
  intro Hb. assert (HbR : (0 < IZR bound)%R) by (apply IZR_lt; lia).
  unfold Dramatic.clamp, Dramatic.py_max, Dramatic.py_min.
  cbn [Dramatic.num_val].
  destruct (Rlt_dec v (IZR bound)) as [Hlt|Hge]; cbn [Dramatic.num_val].
  - destruct (Rlt_dec 0 v) as [Hpos|Hneg]; cbn [Dramatic.num_val].
    + split; [lra|]. split; [reflexivity|lra].
    + split; [lra|]. left. split; [reflexivity|lra].
  - destruct (Rlt_dec 0 (IZR bound)) as [_|Hn]; [|contradiction].
    cbn [Dramatic.num_val]. split; [lra|]. right. split; [reflexivity|lra].
Qed.

(** Unfolds one iteration of the loop of the dramatic variant and names its
    draws. *)
Ltac dramatic_draws :=
  unfold Dramatic.gen_particle, Dramatic.randint, uniform, random, bind, ret;
  repeat match goal with
         | |- context [Dramatic.denv_randint ?D ?a ?b ?g] =>
             is_var g;
             let H := fresh "Hint" in
             let z := fresh "z" in
             let g' := fresh "g" in
             destruct (Dramatic.denv_randint D a b g) as [z g'] eqn:H;
             cbn [fst snd]
         | |- context [env_random ?E ?g] =>
             is_var g;
             let H := fresh "Hdraw" in
             let u := fresh "u" in
             let g' := fresh "g" in
             destruct (env_random E g) as [u g'] eqn:H;
             cbn [fst snd]
         end.

Section DramaticParticles.

Variable D : Dramatic.denv.

Lemma dramatic_gen_particles_Forall (P : Dramatic.particle -> Prop)
      (cfg : Dramatic.settings) :
  (forall i g, P (fst (Dramatic.gen_particle D cfg i g))) ->
  forall idx g, Forall P (fst (Dramatic.gen_particles D cfg idx g)).
Proof.
  intros HP idx; induction idx as [|i idx IH]; intro g; [constructor|].
  cbn [Dramatic.gen_particles]; unfold bind.
  pose proof (HP i g) as Hi.
  destruct (Dramatic.gen_particle D cfg i g) as [p g1].
  specialize (IH g1).
  destruct (Dramatic.gen_particles D cfg idx g1) as [ps g2].
  cbn in *. now constructor.
Qed.

Lemma dramatic_gen_particles_length (cfg : Dramatic.settings)
      (idx : list Z) (g : env_rng (Dramatic.base D)) :
  List.length (fst (Dramatic.gen_particles D cfg idx g)) = List.length idx.
Proof.
  revert g; induction idx as [|i idx IH]; intro g; [reflexivity|].
  cbn [Dramatic.gen_particles]; unfold bind.
  destruct (Dramatic.gen_particle D cfg i g) as [p g1].
  specialize (IH g1).
  destruct (Dramatic.gen_particles D cfg idx g1) as [ps g2].
  simpl in *; now rewrite IH.
Qed.

Lemma dramatic_gen_particle_color (cfg : Dramatic.settings) (i : Z)
      (g : env_rng (Dramatic.base D)) :
  Dramatic.color (fst (Dramatic.gen_particle D cfg i g))
  = if i mod 3 =? 0 then Dramatic.secondary_color cfg
    else Dramatic.primary_color cfg.
Proof.
  dramatic_draws. cbn [Dramatic.color]. now destruct (i mod 3 =? 0).
Qed.

Lemma dramatic_gen_particles_color (cfg : Dramatic.settings)
      (idx : list Z) (g : env_rng (Dramatic.base D)) :
  map Dramatic.color (fst (Dramatic.gen_particles D cfg idx g))
  = map (fun i => if i mod 3 =? 0 then Dramatic.secondary_color cfg
                  else Dramatic.primary_color cfg) idx.
Proof.
  revert g; induction idx as [|i idx IH]; intro g; [reflexivity|].
  cbn [Dramatic.gen_particles]; unfold bind.
  pose proof (dramatic_gen_particle_color cfg i g) as Hi.
  destruct (Dramatic.gen_particle D cfg i g) as [p g1].
  specialize (IH g1).
  destruct (Dramatic.gen_particles D cfg idx g1) as [ps g2].
  cbn in *. now rewrite Hi, IH.
Qed.

Lemma dramatic_particle_count_cases (rarity : string) :
  let cfg := Dramatic.rarity_settings rarity in
  (Dramatic.particle_count cfg = 50 /\ Dramatic.particle_size cfg = 12)
  \/ (Dramatic.particle_count cfg = 100 /\ Dramatic.particle_size cfg = 16)
  \/ (Dramatic.particle_count cfg = 150 /\ Dramatic.particle_size cfg = 20).
Proof.
  unfold Dramatic.rarity_settings.
  destruct (String.eqb rarity "common"); [now left|].
  destruct (String.eqb rarity "uncommon"); [now (right; left)|].
  now (right; right).
Qed.

(** X6. Clamping: every end position of the dramatic variant lies on the
    canvas, 0 <= x <= 720 and 0 <= y <= 1280, whatever the draws; a
    coordinate is an [int] exactly when it was clamped to a border (0 or the
    canvas bound) and a [float] strictly inside the canvas otherwise. *)
Theorem dramatic_end_positions_stay_on_the_canvas
        (rarity : string) (g : env_rng (Dramatic.base D)) :
  Forall (fun p =>
       (0 <= Dramatic.num_val (Dramatic.end_x p) <= 720)%R
       /\ (0 <= Dramatic.num_val (Dramatic.end_y p) <= 1280)%R
       /\ match Dramatic.end_x p with
          | Dramatic.NInt z => z = 0 \/ z = 720
          | Dramatic.NFloat r => (0 < r < 720)%R
          end
       /\ match Dramatic.end_y p with
          | Dramatic.NInt z => z = 0 \/ z = 1280
          | Dramatic.NFloat r => (0 < r < 1280)%R
          end)
     (Dramatic.particles_of D rarity g).
Proof.
  unfold Dramatic.particles_of. apply dramatic_gen_particles_Forall.
  intros i g0. dramatic_draws.
  cbn [Dramatic.end_x Dramatic.end_y].
  match goal with
  | |- context [Dramatic.clamp width ?vx] =>
      destruct (clamp_spec width vx) as [Hx Hx']; [reflexivity|]
  end.
  match goal with
  | |- context [Dramatic.clamp height ?vy] =>
      destruct (clamp_spec height vy) as [Hy Hy']; [reflexivity|]
  end.
  change (IZR width) with 720%R in *. change (IZR height) with 1280%R in *.
  split; [exact Hx|]. split; [exact Hy|]. split.
  - destruct (Dramatic.clamp width _); [|lra].
    destruct Hx' as [[-> _]|[-> _]]; auto.
  - destruct (Dramatic.clamp height _); [|lra].
    destruct Hy' as [[-> _]|[-> _]]; auto.
Qed.

(** X7. Start positions and sizes: when [random.randint(a, b)] returns an
    integer of [a .. b], every particle starts within 100 pixels of the
    centre horizontally and 50 vertically, that is in [260, 460] x
    [376, 476], and its square has a side within 4 of the tier's particle
    size, hence between 8 and 24 pixels. *)
Theorem dramatic_start_and_size_ranges
        (rarity : string) (g : env_rng (Dramatic.base D)) :
  (forall a b s, a <= b -> a <= fst (Dramatic.denv_randint D a b s) <= b) ->
  Forall (fun p =>
       260 <= Dramatic.start_x p <= 460
       /\ 376 <= Dramatic.start_y p <= 476
       /\ Dramatic.particle_size (Dramatic.rarity_settings rarity) - 4
          <= Dramatic.size p
          <= Dramatic.particle_size (Dramatic.rarity_settings rarity) + 4
       /\ 8 <= Dramatic.size p <= 24)
     (Dramatic.particles_of D rarity g).
Proof.
  intro Hrange. unfold Dramatic.particles_of.
  apply dramatic_gen_particles_Forall. intros i g0.
  unfold Dramatic.gen_particle, Dramatic.randint, uniform, random, bind, ret.
  pose proof (Hrange (-100) 100 g0 ltac:(lia)) as H1.
  destruct (Dramatic.denv_randint D (-100) 100 g0) as [dx g1].
  pose proof (Hrange (-50) 50 g1 ltac:(lia)) as H2.
  destruct (Dramatic.denv_randint D (-50) 50 g1) as [dy g2].
  destruct (env_random (Dramatic.base D) g2) as [u1 g3].
  destruct (env_random (Dramatic.base D) g3) as [u2 g4].
  pose proof (Hrange (-4) 4 g4 ltac:(lia)) as H3.
  destruct (Dramatic.denv_randint D (-4) 4 g4) as [ds g5].
  cbn [fst Dramatic.start_x Dramatic.start_y Dramatic.size] in *.
  change center_x with 360. change center_y with 426.
  destruct (dramatic_particle_count_cases rarity)
    as [[_ Hs]|[[_ Hs]|[_ Hs]]]; cbn zeta in Hs; rewrite Hs; lia.
Qed.

Lemma dramatic_particles_length (rarity : string)
      (g : env_rng (Dramatic.base D)) :
  List.length (Dramatic.particles_of D rarity g)
  = Z.to_nat (Dramatic.particle_count (Dramatic.rarity_settings rarity)).
Proof.
  unfold Dramatic.particles_of.
  now rewrite dramatic_gen_particles_length, range_length.
Qed.

(** X8. Counts and colours: the dramatic variant draws 50, 100 or 150
    particles (common, uncommon, anything else), and the particle of index
    [i] takes the secondary colour when [i] is a multiple of 3 and the
    primary colour otherwise. *)
Theorem dramatic_counts_and_colours
        (rarity : string) (g : env_rng (Dramatic.base D)) :
  let cfg := Dramatic.rarity_settings rarity in
  List.length (Dramatic.particles_of D rarity g)
  = Z.to_nat (Dramatic.particle_count cfg)
  /\ map Dramatic.color (Dramatic.particles_of D rarity g)
     = map (fun i => if i mod 3 =? 0 then Dramatic.secondary_color cfg
                     else Dramatic.primary_color cfg)
           (range (Dramatic.particle_count cfg))
  /\ List.length (Dramatic.particles_of D "common" g) = 50%nat
  /\ List.length (Dramatic.particles_of D "uncommon" g) = 100%nat
  /\ List.length (Dramatic.particles_of D "rare" g) = 150%nat
  /\ List.length (Dramatic.particles_of D "epic" g) = 150%nat.
Proof.
  intro cfg. unfold Dramatic.particles_of.
  rewrite !dramatic_gen_particles_length, !range_length.
  split; [reflexivity|].
  split; [apply dramatic_gen_particles_color|]. repeat split.
Qed.

End DramaticParticles.

Lemma demo_randint_range (a b : Z) (s : nat) :
  a <= b -> a <= fst (Dramatic.demo_randint a b s) <= b.
Proof.
  intro Hab. unfold Dramatic.demo_randint. cbn [fst].
  pose proof (Z.mod_pos_bound (Z.of_nat s) (b - a + 1) ltac:(lia)). lia.
Qed.

Lemma dramatic_start_and_size_ranges_witness :
  Forall (fun p =>
       260 <= Dramatic.start_x p <= 460
       /\ 376 <= Dramatic.start_y p <= 476
       /\ Dramatic.particle_size (Dramatic.rarity_settings "uncommon") - 4
          <= Dramatic.size p
          <= Dramatic.particle_size (Dramatic.rarity_settings "uncommon") + 4
       /\ 8 <= Dramatic.size p <= 24)
     (Dramatic.particles_of
        (Dramatic.demo_denv encoder_ok (fun _ => Some 4096)) "uncommon" 0%nat).
Proof.
  apply (dramatic_start_and_size_ranges
           (Dramatic.demo_denv encoder_ok (fun _ => Some 4096))
           "uncommon" 0%nat).
  exact demo_randint_range.
Defined.

(** *** The graph of the dramatic variant *)

Lemma map_fst_combine_same_length {A B : Type} (l1 : list A) :
  forall l2 : list B,
    List.length l1 = List.length l2 -> map fst (combine l1 l2) = l1.
Proof.
  induction l1 as [|a l1 IH]; intros [|b l2] Hlen; try discriminate;
    [reflexivity|].
  cbn. f_equal. apply IH. now injection Hlen.
Qed.

Lemma enumerate_indices {A : Type} (l : list A) :
  map fst (Dramatic.enumerate l) = range (Z.of_nat (List.length l)).
Proof.
  unfold Dramatic.enumerate. apply map_fst_combine_same_length.
  rewrite range_length. lia.
Qed.

Lemma dramatic_particle_filters_wires (l : list (Z * Dramatic.particle)) :
  map Dramatic.wire (flat_map Dramatic.particle_filters l)
  = flat_map particle_wires (map fst l).
Proof.
  induction l as [|[i p] l IH]; [reflexivity|].
  cbn [flat_map map fst]. rewrite map_app, IH. reflexivity.
Qed.

Lemma skeleton_50_chain : linear_chain (skeleton 50 0) (final_label 50 0).
Proof. apply linear_chainb_sound. vm_compute. reflexivity. Qed.

Lemma skeleton_100_chain : linear_chain (skeleton 100 0) (final_label 100 0).
Proof. apply linear_chainb_sound. vm_compute. reflexivity. Qed.

Lemma skeleton_150_chain : linear_chain (skeleton 150 0) (final_label 150 0).
Proof. apply linear_chainb_sound. vm_compute. reflexivity. Qed.

Lemma dramatic_position_expr_eval (fn : string -> R -> R) (t : R)
      (start : Z) (end_ : Dramatic.num) :
  Dramatic.expr_eval fn t (Dramatic.position_expr start end_)
  = (IZR start
     + (Dramatic.num_val end_ - IZR start)
       * fn "easeout" (t / Dramatic.duration))%R.
Proof. reflexivity. Qed.

Lemma dramatic_alpha_expr_eval (fn : string -> R -> R) (t : R) :
  Dramatic.expr_eval fn t Dramatic.alpha_expr
  = (1 - t / Dramatic.duration)%R.
Proof. reflexivity. Qed.

Section DramaticGraph.

Variable D : Dramatic.denv.

Lemma dramatic_filters_wires (rarity : string)
      (g : env_rng (Dramatic.base D)) :
  map Dramatic.wire (Dramatic.filters_of D rarity g)
  = skeleton (Dramatic.particle_count (Dramatic.rarity_settings rarity)) 0.
Proof.
  unfold Dramatic.filters_of, Dramatic.build_filters, skeleton.
  cbn [map]. rewrite dramatic_particle_filters_wires, enumerate_indices.
  rewrite dramatic_particles_length.
  change (range 0) with (@nil Z). cbn [flat_map]. rewrite app_nil_r.
  do 3 f_equal.
  destruct (dramatic_particle_count_cases rarity)
    as [[-> _]|[[-> _]|[-> _]]]; reflexivity.
Qed.

Lemma dramatic_final_output (rarity : string)
      (g : env_rng (Dramatic.base D)) :
  Dramatic.final_output (Dramatic.particles_of D rarity g)
  = final_label (Dramatic.particle_count (Dramatic.rarity_settings rarity)) 0.
Proof.
  pose proof (dramatic_particles_length D rarity g) as Hlen.
  destruct (Dramatic.particles_of D rarity g) as [|p ps] eqn:Hps.
  - exfalso. cbn [List.length] in Hlen.
    destruct (dramatic_particle_count_cases rarity)
      as [[Hn _]|[[Hn _]|[Hn _]]]; cbn zeta in Hn; rewrite Hn in Hlen;
      discriminate.
  - unfold Dramatic.final_output. rewrite Hlen.
    destruct (dramatic_particle_count_cases rarity)
      as [[-> _]|[[-> _]|[-> _]]]; reflexivity.
Qed.

(** X9. The graph of the dramatic variant is one linear chain too: the
    background, then for each particle [i] its colour source [p<i>] and its
    overlay of [p<i>] onto the previous result ([bg], then [tmp<i-1>]); no
    label is declared twice, every operation reads labels declared before
    it, every label but the last is read exactly once, and the last one,
    [tmp<n-1>], is the one given to [-map]. *)
Theorem dramatic_graph_is_one_linear_chain
        (rarity output_path : string) (g : env_rng (Dramatic.base D)) :
  let n := Dramatic.particle_count (Dramatic.rarity_settings rarity) in
  let fs := Dramatic.filters_of D rarity g in
  let final := Dramatic.final_output (Dramatic.particles_of D rarity g) in
  let cmd := Dramatic.job_cmd D rarity output_path g in
  map Dramatic.wire fs = skeleton n 0
  /\ final = lbl_tmp (n - 1)
  /\ linear_chain (map Dramatic.wire fs) final
  /\ nth_error cmd 7
     = Some (String.concat ";" (map (Dramatic.filter_str D) fs))
  /\ nth_error cmd 8 = Some "-map"
  /\ nth_error cmd 9 = Some ("[" ++ final ++ "]")
  /\ last cmd "" = output_path.
Proof.
  intros n fs final cmd. subst n fs final cmd.
  rewrite dramatic_filters_wires, dramatic_final_output.
  split; [reflexivity|]. split.
  { destruct (dramatic_particle_count_cases rarity)
      as [[-> _]|[[-> _]|[-> _]]]; reflexivity. }
  split;
    [|repeat split; unfold Dramatic.job_cmd, Dramatic.build_cmd;
      cbn [nth_error]; now rewrite dramatic_final_output].
  destruct (dramatic_particle_count_cases rarity)
    as [[-> _]|[[-> _]|[-> _]]].
  - exact skeleton_50_chain.
  - exact skeleton_100_chain.
  - exact skeleton_150_chain.
Qed.

(** X10. Motion and fade-out in the dramatic variant: every overlay carries
    the option [alpha] with the value [1 - t / 2.0], which is 1 at [t = 0]
    and 0 at the end of the clip, and [x] and [y] options of the form
    [start + (end - start) * easeout(t / 2.0)] with [start] an integer and
    [end] on the canvas, whatever function [easeout] stands for. *)
Theorem dramatic_overlays_fade_and_ease
        (rarity : string) (g : env_rng (Dramatic.base D)) :
  Forall (fun f =>
       Dramatic.f_name f = "overlay" ->
       (exists a,
           Dramatic.f_opt "alpha" f = Some (Dramatic.OQuoted a)
           /\ (forall fn t, Dramatic.expr_eval fn t a = (1 - t / 2)%R)
           /\ (forall fn, Dramatic.expr_eval fn 0 a = 1%R)
           /\ (forall fn, Dramatic.expr_eval fn Dramatic.duration a = 0%R))
       /\ (exists p e_x e_y,
              In p (Dramatic.particles_of D rarity g)
              /\ Dramatic.f_opt "x" f = Some (Dramatic.OQuoted e_x)
              /\ Dramatic.f_opt "y" f = Some (Dramatic.OQuoted e_y)
              /\ forall fn t,
                  Dramatic.expr_eval fn t e_x
                  = (IZR (Dramatic.start_x p)
                     + (Dramatic.num_val (Dramatic.end_x p)
                        - IZR (Dramatic.start_x p))
                       * fn "easeout" (t / 2))%R
                  /\ Dramatic.expr_eval fn t e_y
                     = (IZR (Dramatic.start_y p)
                        + (Dramatic.num_val (Dramatic.end_y p)
                           - IZR (Dramatic.start_y p))
                          * fn "easeout" (t / 2))%R))
     (Dramatic.filters_of D rarity g).
Proof.
  unfold Dramatic.filters_of, Dramatic.build_filters.
  constructor; [cbn; discriminate|].
  apply Forall_flat_map, Forall_forall. intros [i p] Hip.
  assert (Hp : In p (Dramatic.particles_of D rarity g)).
  { unfold Dramatic.enumerate in Hip. now apply in_combine_r in Hip. }
  cbn [Dramatic.particle_filters].
  constructor; [cbn; discriminate|]. constructor; [|constructor].
  intros _. split.
  - exists Dramatic.alpha_expr. split; [reflexivity|].
    repeat split; intros; rewrite dramatic_alpha_expr_eval;
      unfold Dramatic.duration; lra.
  - exists p, (Dramatic.position_expr (Dramatic.start_x p) (Dramatic.end_x p)),
      (Dramatic.position_expr (Dramatic.start_y p) (Dramatic.end_y p)).
    split; [exact Hp|]. split; [reflexivity|]. split; [reflexivity|].
    intros fn t. rewrite !dramatic_position_expr_eval.
    unfold Dramatic.duration.
    replace (t / 2.0)%R with (t / 2)%R by lra. split; reflexivity.
Qed.

End DramaticGraph.

(** *** The job and the driver of the dramatic variant *)

Lemma spawned_dramatic_prints (D : Dramatic.denv)
      (rarity output_path : string) (r : run_result) (bytes : option Z) :
  spawned (dramatic_prints D rarity output_path r bytes) = [].
Proof.
  destruct r as [rc err| |]; cbn; [|reflexivity..].
  destruct (rc =? 0); [destruct bytes|]; reflexivity.
Qed.

Section DramaticDriver.

Variable D : Dramatic.denv.

Local Abbreviation E := (Dramatic.base D).

(** One call of [create_dramatic_celebration_video], in closed form. *)
Lemma create_dramatic_spec (rarity output_path : string) (st : state E) :
  Dramatic.create_dramatic_celebration_video D rarity output_path st =
  let cmd := Dramatic.job_cmd D rarity output_path (st_rng st) in
  let r := env_run E cmd (st_os st) in
  let bytes := Dramatic.denv_getsize D output_path (snd r) in
  (dramatic_ok (fst r) bytes,
   mk_state
     (snd (Dramatic.gen_particles D (Dramatic.rarity_settings rarity)
             (range (Dramatic.particle_count
                       (Dramatic.rarity_settings rarity)))
             (st_rng st)))
     (snd r)
     (st_log st
      ++ [Print ("Generating DRAMATIC " ++ rarity
                 ++ " celebration video with "
                 ++ str_Z (Dramatic.particle_count
                             (Dramatic.rarity_settings rarity))
                 ++ " particles...");
          Spawn cmd 120]
      ++ dramatic_prints D rarity output_path (fst r) bytes)%list).
Proof.
  unfold Dramatic.create_dramatic_celebration_video, Dramatic.job_cmd,
    Dramatic.filters_of, Dramatic.particles_of, bind, with_rng.
  destruct (Dramatic.gen_particles D (Dramatic.rarity_settings rarity)
              (range (Dramatic.particle_count
                        (Dramatic.rarity_settings rarity)))
              (st_rng st)) as [ps g'].
  cbn [fst snd].
  unfold print, emit, subprocess_run, Dramatic.getsize, ret;
    cbn [st_rng st_os st_log].
  destruct (env_run E _ (st_os st)) as [r o]. cbn [fst snd].
  destruct r as [rc err| |];
    [cbn [dramatic_ok dramatic_prints]; destruct (rc =? 0);
     [cbn [st_rng st_os st_log];
      destruct (Dramatic.denv_getsize D output_path o)|]|..];
    cbn [st_rng st_os st_log fst snd andb]; rewrite <- ?app_assoc;
    reflexivity.
Qed.





(** X11. The output file is checked by accident: when the encoder ends with
    exit code 0 and the output file does not exist, [os.path.getsize] raises
    [FileNotFoundError] inside the [try], the handler meant for a missing
    ffmpeg catches it, and the call returns [False] after printing both the
    success line and 'FFmpeg not found'. *)
Theorem missing_output_file_is_reported_as_missing_ffmpeg
        (rarity output_path stderr : string) (st : state E) :
  let cmd := Dramatic.job_cmd D rarity output_path (st_rng st) in
  fst (env_run E cmd (st_os st)) = Completed 0 stderr ->
  Dramatic.denv_getsize D output_path (snd (env_run E cmd (st_os st))) = None ->
  fst (Dramatic.create_dramatic_celebration_video D rarity output_path st)
  = false
  /\ st_log (snd (Dramatic.create_dramatic_celebration_video D rarity
                    output_path st))
     = (st_log st
        ++ [Print ("Generating DRAMATIC " ++ rarity
                   ++ " celebration video with "
                   ++ str_Z (Dramatic.particle_count
                               (Dramatic.rarity_settings rarity))
                   ++ " particles...");
            Spawn cmd 120;
            Print ("✅ Successfully created " ++ output_path);
            Print "❌ FFmpeg not found. Please install FFmpeg first."])%list.
Proof.
  intros cmd Hrun Hsize. subst cmd. rewrite create_dramatic_spec.
  cbn zeta. cbn [fst snd st_log]. rewrite Hrun, Hsize. split; reflexivity.
Qed.

(** X12. When a call of the dramatic variant succeeds: it returns [True]
    exactly when the encoder ended with exit code 0 and the output file
    exists afterwards; in every case it runs the encoder exactly once, with
    a timeout of 120 seconds, on a command that ends with the output
    path. *)
Theorem dramatic_call_succeeds_iff_exit_0_and_file_exists
        (rarity output_path : string) (st : state E) :
  let cmd := Dramatic.job_cmd D rarity output_path (st_rng st) in
  let r := env_run E cmd (st_os st) in
  (fst (Dramatic.create_dramatic_celebration_video D rarity output_path st)
   = true
   <-> (exists stderr, fst r = Completed 0 stderr)
       /\ exists n, Dramatic.denv_getsize D output_path (snd r) = Some n)
  /\ (exists before after,
         st_log (snd (Dramatic.create_dramatic_celebration_video D rarity
                        output_path st))
         = (st_log st ++ before ++ Spawn cmd 120 :: after)%list
         /\ spawned before = [] /\ spawned after = [])
  /\ last cmd "" = output_path.
Proof.
  intros cmd r. subst cmd r. rewrite create_dramatic_spec.
  cbn zeta. cbn [fst snd st_log]. split; [|split; [|reflexivity]].
  - destruct (fst (env_run E _ (st_os st))) as [rc err| |];
      cbn [dramatic_ok].
    + destruct (Dramatic.denv_getsize D output_path _) as [n|].
      * destruct (rc =? 0) eqn:Hrc; cbn [andb].
        -- apply Z.eqb_eq in Hrc. subst rc. split; [|reflexivity].
           intros _. split; [now exists err|now exists n].
        -- split; [discriminate|]. intros [[e He] _]. injection He as -> _.
           discriminate.
      * rewrite andb_false_r.
        split; [discriminate|]. intros [_ [n Hn]]. discriminate.
    + split; [discriminate|]. intros [[e He] _]. discriminate.
    + split; [discriminate|]. intros [[e He] _]. discriminate.
  - eexists [_], _. split; [reflexivity|].
    split; [reflexivity|apply spawned_dramatic_prints].
Qed.


End DramaticDriver.

Lemma missing_output_file_witness :
  fst (Dramatic.create_dramatic_celebration_video
         (Dramatic.demo_denv encoder_ok (fun _ => None))
         "common" "out.mp4" (demo_state encoder_ok))
  = false
  /\ st_log (snd (Dramatic.create_dramatic_celebration_video
                    (Dramatic.demo_denv encoder_ok (fun _ => None))
                    "common" "out.mp4" (demo_state encoder_ok)))
     = [Print "Generating DRAMATIC common celebration video with 50 particles...";
        Spawn (Dramatic.job_cmd
                 (Dramatic.demo_denv encoder_ok (fun _ => None))
                 "common" "out.mp4" 0%nat) 120;
        Print "✅ Successfully created out.mp4";
        Print "❌ FFmpeg not found. Please install FFmpeg first."].
Proof.
  apply (missing_output_file_is_reported_as_missing_ffmpeg
           (Dramatic.demo_denv encoder_ok (fun _ => None))
           "common" "out.mp4" "" (demo_state encoder_ok));
    reflexivity.
Defined.

(** *** The dramatic variant and the state of the generator *)

Lemma dramatic_gen_particle_start_x (D : Dramatic.denv)
      (cfg : Dramatic.settings) (i : Z) (g : env_rng (Dramatic.base D)) :
  Dramatic.start_x (fst (Dramatic.gen_particle D cfg i g))
  = center_x + fst (Dramatic.denv_randint D (-100) 100 g).
Proof.
  unfold Dramatic.gen_particle, Dramatic.randint, uniform, random, bind, ret.
  destruct (Dramatic.denv_randint D (-100) 100 g) as [dx g1].
  destruct (Dramatic.denv_randint D (-50) 50 g1) as [dy g2].
  destruct (env_random (Dramatic.base D) g2) as [u1 g3].
  destruct (env_random (Dramatic.base D) g3) as [u2 g4].
  destruct (Dramatic.denv_randint D (-4) 4 g4) as [ds g5].
  reflexivity.
Qed.

(** The first particle of a call is drawn from the state the generator is
    in when the call starts. *)
Lemma dramatic_first_particle (D : Dramatic.denv) (rarity : string)
      (g : env_rng (Dramatic.base D)) :
  exists ps,
    Dramatic.particles_of D rarity g
    = fst (Dramatic.gen_particle D (Dramatic.rarity_settings rarity) 0 g)
      :: ps.
Proof.
  unfold Dramatic.particles_of.
  assert (Hrange : exists idx,
             range (Dramatic.particle_count (Dramatic.rarity_settings rarity))
             = 0 :: idx).
  { destruct (dramatic_particle_count_cases rarity)
      as [[-> _]|[[-> _]|[-> _]]]; eexists; reflexivity. }
  destruct Hrange as [idx ->].
  cbn [Dramatic.gen_particles]. unfold bind.
  destruct (Dramatic.gen_particle D (Dramatic.rarity_settings rarity) 0 g)
    as [p g1].
  destruct (Dramatic.gen_particles D (Dramatic.rarity_settings rarity) idx g1)
    as [ps g2].
  now exists ps.
Qed.

(** X14. No seed in the dramatic variant: the first particle of a call
    starts at [center_x] plus the first [randint(-100, 100)] drawn from the
    state the global generator is in when the call starts, so the
    trajectories depend on that state: there are an environment and two
    generator states from which the same rarity gives different
    particles. *)
Theorem dramatic_particles_depend_on_the_generator_state :
  (forall (D : Dramatic.denv) rarity g,
      option_map Dramatic.start_x (hd_error (Dramatic.particles_of D rarity g))
      = Some (center_x + fst (Dramatic.denv_randint D (-100) 100 g)))
  /\ exists (D : Dramatic.denv) (g1 g2 : env_rng (Dramatic.base D)),
      Dramatic.particles_of D "common" g1
      <> Dramatic.particles_of D "common" g2.
Proof.
  assert (Hfirst : forall (D : Dramatic.denv) rarity g,
             option_map Dramatic.start_x
                        (hd_error (Dramatic.particles_of D rarity g))
             = Some (center_x + fst (Dramatic.denv_randint D (-100) 100 g))).
  { intros D rarity g.
    destruct (dramatic_first_particle D rarity g) as [ps ->].
    cbn [hd_error option_map]. now rewrite dramatic_gen_particle_start_x. }
  split; [exact Hfirst|].
  exists (Dramatic.demo_denv encoder_ok (fun _ => None)), 0%nat, 1%nat.
  intro Heq.
  pose proof (Hfirst (Dramatic.demo_denv encoder_ok (fun _ => None))
                "common" 0%nat) as H0.
  pose proof (Hfirst (Dramatic.demo_denv encoder_ok (fun _ => None))
                "common" 1%nat) as H1.
  rewrite Heq, H1 in H0. discriminate.
Qed.
